(** * s3synccli: the SmartS3Sync class of s3sync.py, embedded and verified

    The program reconciles the directories of a local tree with the keys of
    an S3 bucket and then hands the tree to [aws s3 sync].  Everything it
    does to the outside goes through child processes ([find | sort] and the
    [aws] command line); everything it decides is string and dictionary code.

    Layout of this development:
    - [Py]: the Python built-ins the class uses ([str.split], [str.strip],
      slices, exceptions, JSON values and dictionaries);
    - [Os]: the child processes, the world that answers them, and the monad
      (state, exception and event log) the methods run in;
    - [S3Sync]: the methods of [SmartS3Sync], in source order, and [main];
    - [S3UpV2]: the [parse_meta] of the earlier script s3upv2.py;
    - [Store] and [Fixed]: two worlds, a bucket in which every well-formed
      request takes effect (the remote state of the idempotence results)
      and a world that answers from a table and never changes;
    - [Sample]: the inputs the results are run on;
    - the results, by topic: the built-ins, the pure methods, the runs of
      the reconciler and of [sync], the start-up, and reconciling twice. *)

From Stdlib Require Import Ascii ZArith.
From stdpp Require Import base option list strings gmap.

Set Warnings "-register-all".

Open Scope Z_scope.
Open Scope nat_scope.

(** ** Python built-ins *)

Module Py.

(** The exceptions the modelled code can meet. *)
Inductive exn : Type :=
  | KeyError
  | IndexError
  | TypeError
  | JSONDecodeError
  | FileNotFoundError.

(** A Python computation either returns or raises. *)
Inductive exc (A : Type) : Type :=
  | Return (a : A)
  | Raise (e : exn).
Arguments Return {A} a.
Arguments Raise {A} e.

Definition exc_bind {A B} (m : exc A) (f : A → exc B) : exc B :=
  match m with
  | Return a => f a
  | Raise e => Raise e
  end.

Declare Scope py_scope.
Delimit Scope py_scope with py.
Notation "x <- m ;; k" := (exc_bind m (fun x => k))
  (at level 100, m at next level, right associativity) : py_scope.

(** *** Strings

    A [str] is a [string]; a character stands for a code point below 256. *)

(** [c.isspace()] for the code points below 256. *)
Definition isspace (c : ascii) : bool :=
  let n := nat_of_ascii c in
  ((9 <=? n) && (n <=? 13)) || ((28 <=? n) && (n <=? 32))
  || (n =? 133) || (n =? 160).

Fixpoint lstrip (s : string) : string :=
  match s with
  | EmptyString => EmptyString
  | String c s' => if isspace c then lstrip s' else s
  end.

Fixpoint rstrip (s : string) : string :=
  match s with
  | EmptyString => EmptyString
  | String c s' =>
      match rstrip s' with
      | EmptyString => if isspace c then EmptyString else String c EmptyString
      | r => String c r
      end
  end.

(** [s.strip()] *)
Definition strip (s : string) : string := rstrip (lstrip s).

(** [s.split(sep, maxsplit)] for a one-character separator; [None] is
    Python's default [maxsplit = -1], no limit. *)
Fixpoint split (sep : ascii) (maxsplit : option nat) (s : string) : list string :=
  match s with
  | EmptyString => [EmptyString]
  | String c s' =>
      if Ascii.eqb c sep then
        match maxsplit with
        | Some 0 =>
            match split sep maxsplit s' with
            | h :: t => String c h :: t
            | [] => [String c EmptyString]
            end
        | Some (S n) => EmptyString :: split sep (Some n) s'
        | None => EmptyString :: split sep None s'
        end
      else
        match split sep maxsplit s' with
        | h :: t => String c h :: t
        | [] => [String c EmptyString]
        end
  end.

(** [s[n:]] for [n >= 0]: past the end it is the empty string. *)
Fixpoint slice_from (n : nat) (s : string) : string :=
  match n, s with
  | 0, _ => s
  | S n', String _ s' => slice_from n' s'
  | S _, EmptyString => EmptyString
  end.

(** [c in s] for a character [c]. *)
Fixpoint has_char (c : ascii) (s : string) : bool :=
  match s with
  | EmptyString => false
  | String c' s' => Ascii.eqb c' c || has_char c s'
  end.

(** [l[i]] for [i >= 0]. *)
Definition getitem {A} (l : list A) (i : nat) : exc A :=
  match l !! i with
  | Some x => Return x
  | None => Raise IndexError
  end.

(** The last character of a string, when it has one. *)
Fixpoint last_char (s : string) : option ascii :=
  match s with
  | EmptyString => None
  | String c EmptyString => Some c
  | String _ s' => last_char s'
  end.

(** *** JSON values and dictionaries *)

Inductive json : Type :=
  | JNull
  | JBool (b : bool)
  | JNum (n : Z)
  | JStr (s : string)
  | JArr (l : list json)
  | JObj (d : list (string * json)).

(** A [dict] keeps its keys in insertion order, each once. *)
Abbreviation dict := (list (string * json)).

(** [d[k]] read. *)
Fixpoint dict_get (k : string) (d : dict) : option json :=
  match d with
  | [] => None
  | (k', v') :: d' => if String.eqb k' k then Some v' else dict_get k d'
  end.

(** [d[k] = v]: an existing key keeps its place, a new one goes last. *)
Fixpoint dict_set (k : string) (v : json) (d : dict) : dict :=
  match d with
  | [] => [(k, v)]
  | (k', v') :: d' =>
      if String.eqb k' k then (k', v) :: d' else (k', v') :: dict_set k v d'
  end.

(** [j[k]] for a string [k]. *)
Definition json_getitem (j : json) (k : string) : exc json :=
  match j with
  | JObj d =>
      match dict_get k d with
      | Some v => Return v
      | None => Raise KeyError
      end
  | _ => Raise TypeError
  end.

(** [j[k] = v] for a string [k]; the result is the mutated object. *)
Definition json_setitem (j : json) (k : string) (v : json) : exc json :=
  match j with
  | JObj d => Return (JObj (dict_set k v d))
  | _ => Raise TypeError
  end.

(** [len(j)] *)
Definition len (j : json) : exc nat :=
  match j with
  | JObj d => Return (length d)
  | JArr l => Return (length l)
  | JStr s => Return (String.length s)
  | _ => Raise TypeError
  end.

(** A [str] that the program only hands to [json.loads] or receives from
    [json.dumps] (the [--metadata] option, the attribute strings, the output
    of [head-object]) is kept as the document it spells; [NotJson s] is a
    text [s] that [json.loads] rejects, the empty output of a failed command
    among them. *)
Inductive text : Type :=
  | Json (j : json)
  | NotJson (s : string).

Definition json_loads (t : text) : exc json :=
  match t with
  | Json j => Return j
  | NotJson _ => Raise JSONDecodeError
  end.

(** [json.loads(x)] for an [x] that may be [None]. *)
Definition json_loads_opt (x : option text) : exc json :=
  match x with
  | Some t => json_loads t
  | None => Raise TypeError
  end.

Definition json_dumps (j : json) : text := Json j.

End Py.

(** ** Child processes and the world that answers them *)

Module Os.
Import Py.

(** What the program does to the outside, one constructor per command line
    of the source (the arguments are those the source passes), and the
    lines it writes to standard error. *)
Inductive event : Type :=
  | find_sort (local : string)
      (* find local -type d | sort -n *)
  | head_object (bucket key profile : string)
      (* aws s3api head-object --bucket --key --profile *)
  | copy_object (bucket key copy_source : string) (metadata : text)
      (metadata_directive profile : string)
      (* aws s3api copy-object --bucket --key --copy-source --metadata
         --metadata-directive --profile *)
  | put_object (bucket key : string) (metadata : text) (profile : string)
      (* aws s3api put-object --bucket --key --metadata --profile *)
  | aws_sync (local s3url : string) (metadata : text) (profile : string)
      (* aws s3 sync local s3url --metadata --profile *)
  | stderr_write (msg : string).

(** The key a command creates or updates, the attributes it attaches. *)
Definition mutated_key (e : event) : option string :=
  match e with
  | put_object _ k _ _ => Some k
  | copy_object _ k _ _ _ _ => Some k
  | _ => None
  end.

Definition attached (e : event) : option text :=
  match e with
  | put_object _ _ md _ => Some md
  | copy_object _ _ _ md _ _ => Some md
  | aws_sync _ _ md _ => Some md
  | _ => None
  end.

Definition is_mutation (e : event) : bool :=
  match mutated_key e with
  | Some _ => true
  | None => false
  end.

Definition is_bulk (e : event) : bool :=
  match e with
  | aws_sync _ _ _ _ => true
  | _ => false
  end.

(** The create and update commands of a log, in order. *)
Definition mutations (l : list event) : list event := List.filter is_mutation l.

(** The answer of the object store to a lookup (HeadObject). *)
Inductive failure : Type :=
  | NetworkError
  | PermissionDenied
  | MalformedResponse
  | RequestRefused.   (* the command line refuses the request unsent *)

Inductive lookup : Type :=
  | Found (metadata : list (string * string))
  | NotFound
  | OtherError (cause : failure).

Definition metadata_json (md : list (string * string)) : json :=
  JObj (map (fun kv => (kv.1, JStr kv.2)) md).

(** What [aws s3api head-object] prints on standard output: the response as
    a JSON document when the object is there (of its members the program
    reads [Metadata] only), nothing when the request failed, whatever the
    reason (the message goes to standard error). *)
Definition head_stdout (r : lookup) : text :=
  match r with
  | Found md => Json (JObj [("Metadata", metadata_json md)])
  | NotFound => NotJson ""
  | OtherError _ => NotJson ""
  end.

(** The outside world: how it answers, and what a command leaves behind. *)
Class World (W : Type) : Type := {
  (** the store's answer to a lookup of [key] in [bucket] under [profile] *)
  head_result : W → string → string → string → lookup;
  (** the standard output of [find local -type d | sort -n], as
      [.decode()] returns it: the runs in which that output is no valid
      UTF-8, where [.decode()] raises, are not modelled *)
  find_output : W → string → string;
  (** the world after a command has run *)
  world_step : W → event → W
}.

(** The machine the program runs on: [aws_installed] says whether the
    [aws] executable can be started at all ([find] and [sort] always can). *)
Record machine (W : Type) : Type := Machine {
  aws_installed : bool;
  world : W
}.
Arguments Machine {W} _ _.
Arguments aws_installed {W} _.
Arguments world {W} _.

(** A method is run from a machine; it returns or raises, leaves a machine
    behind and has produced events, oldest first. *)
Definition M (W A : Type) : Type := machine W → exc A * machine W * list event.

Section Monad.
Context {W : Type} `{World W}.

Definition ret {A} (a : A) : M W A := fun m => (Return a, m, []).

Definition bind {A B} (c : M W A) (f : A → M W B) : M W B := fun m =>
  match c m with
  | (Return a, m1, ev1) =>
      match f a m1 with
      | (r, m2, ev2) => (r, m2, ev1 ++ ev2)
      end
  | (Raise e, m1, ev1) => (Raise e, m1, ev1)
  end.

(** A pure computation inside a method. *)
Definition lift {A} (r : exc A) : M W A := fun m => (r, m, []).

(** [try: body except: handler], the bare [except] that catches all. *)
Definition try_except {A} (body handler : M W A) : M W A := fun m =>
  match body m with
  | (Return a, m1, ev1) => (Return a, m1, ev1)
  | (Raise _, m1, ev1) =>
      match handler m1 with
      | (r, m2, ev2) => (r, m2, ev1 ++ ev2)
      end
  end.

(** The event [e] happens. *)
Definition emit (e : event) : M W unit := fun m =>
  (Return tt, Machine (aws_installed m) (world_step (world m) e), [e]).

(** [subprocess.Popen]/[subprocess.run] of an [aws] command line: without
    the executable the call raises and nothing is run. *)
Definition spawn_aws (e : event) : M W unit := fun m =>
  if aws_installed m then emit e m else (Raise FileNotFoundError, m, []).

(** The decoded standard output of [find local -type d | sort -n]; the
    world gives it decoded, see [find_output]. *)
Definition popen_find_sort (local : string) : M W string := fun m =>
  match emit (find_sort local) m with
  | (_, m1, ev) => (Return (find_output (world m) local), m1, ev)
  end.

(** [Popen] of [aws s3api head-object]; the handle it returns is kept as
    the standard output that [communicate] will read from it. *)
Definition popen_head_object (bucket key profile : string) : M W text := fun m =>
  match spawn_aws (head_object bucket key profile) m with
  | (Return _, m1, ev) =>
      (Return (head_stdout (head_result (world m) bucket key profile)), m1, ev)
  | (Raise e, m1, ev) => (Raise e, m1, ev)
  end.

Definition result {A} (r : exc A * machine W * list event) : exc A := r.1.1.
Definition final {A} (r : exc A * machine W * list event) : machine W := r.1.2.
Definition events {A} (r : exc A * machine W * list event) : list event := r.2.

End Monad.

Declare Scope os_scope.
Delimit Scope os_scope with os.
Notation "x <- c ;; k" := (bind c (fun x => k))
  (at level 100, c at next level, right associativity) : os_scope.
Notation "c ;; k" := (bind c (fun _ => k))
  (at level 100, right associativity) : os_scope.

End Os.

(** ** s3sync.py *)

Module S3Sync.
Import Py Os.

Definition newline : ascii := ascii_of_nat 10.
Definition slash : ascii := ascii_of_nat 47.

(** The dictionary [docopt] builds from the usage text: its keys are fixed,
    [--metadata] and [--profile] have defaults, all values are strings. *)
Record Options : Type := {
  opt_localdir : string;   (* options['<localdir>'] *)
  opt_s3path : string;     (* options['<s3path>'] *)
  opt_metadata : text;     (* options['--metadata'] *)
  opt_profile : string     (* options['--profile'] *)
}.

(** The attributes of a [SmartS3Sync] object. *)
Record SmartS3Sync : Type := {
  local : string;
  s3path : string;
  bucket : string;
  key : string;
  localToKeys : list string;
  metadir : text;
  metafile : text;
  profile : string
}.

Section Script.
(** [options] is the module-level global that [__main__] assigns. *)
Variable options : Options.
Context {W : Type} `{World W}.

Local Open Scope os_scope.

(** [parse_meta(self, meta)] *)
Definition parse_meta (meta : text) : exc (text * text) :=
  (metadir <- json_loads (opt_metadata options);;
   metadir <- json_setitem metadir "mode" (JStr "509");;
   let metadirjs := json_dumps metadir in
   metafile <- json_loads (opt_metadata options);;
   metafile <- json_setitem metafile "mode" (JStr "33204");;
   let metafilejs := json_dumps metafile in
   Return (metadirjs, metafilejs))%py.

(** [parse_prefix(self, path)] *)
Definition parse_prefix (path : string) : exc string :=
  if 1 <? length (split slash (Some 1) path)
  then getitem (split slash (Some 1) path) 1
  else Return path.

(** [find_dirs(self, local)]; of [self] it reads [key] and [local]. *)
Definition find_dirs (self_key self_local : string) (local : string)
  : M W (list string) :=
  out <- popen_find_sort local;;
  let dLst := split newline None (strip out) in
  ret (map (fun k =>
              self_key +:+ slice_from (String.length self_local + 1) k +:+ "/")
           dLst).

(** [key_exists(self, key)] *)
Definition key_exists (self : SmartS3Sync) (key : string) : M W text :=
  popen_head_object (bucket self) key (profile self).

(** [meta_check(self, obj_head)] *)
Definition meta_check (obj_head : text) : exc bool :=
  (doc <- json_loads obj_head;;
   meta <- json_getitem doc "Metadata";;
   n <- len meta;;
   if n =? 0 then Return false else Return true)%py.

(** [meta_update(self, key, metadata)] *)
Definition meta_update (self : SmartS3Sync) (key : string) (metadata : text)
  : M W unit :=
  spawn_aws (copy_object (bucket self) key (bucket self +:+ "/" +:+ key)
                         metadata "REPLACE" (profile self)).

(** [create_key(self, key, metadata)] *)
Definition create_key (self : SmartS3Sync) (key : string) (metadata : text)
  : M W unit :=
  spawn_aws (put_object (bucket self) key metadata (profile self)).

(** The body of the [for] loop of [verify_keys], for the key [k]. *)
Definition verify_key (self : SmartS3Sync) (k : string) (meta : text) : M W unit :=
  try_except
    (check <- key_exists self k;;
     metaresult <- lift (meta_check check);;
     if negb metaresult
     then
       emit (stderr_write ("no metadata found for " +:+ k +:+ " updating..."
                           +:+ String newline ""));;
       meta_update self k meta
     else ret tt)
    (emit (stderr_write ("creating key '" +:+ k +:+ "'" +:+ String newline ""));;
     create_key self k meta).

(** [verify_keys(self, keys, meta)] *)
Fixpoint verify_keys (self : SmartS3Sync) (keys : list string) (meta : text)
  : M W unit :=
  match keys with
  | [] => ret tt
  | k :: keys' => verify_key self k meta;; verify_keys self keys' meta
  end.

(** [sync(self)] *)
Definition sync (self : SmartS3Sync) : M W unit :=
  verify_keys self [key self] (metadir self);;
  verify_keys self (drop 1 (localToKeys self)) (metadir self);;
  let s3url := "s3://" +:+ s3path self in
  spawn_aws (aws_sync (local self) s3url (metafile self) (profile self)).

(** The first two assignments of [__init__] that concern the target:
    [self.bucket] and [self.key]. *)
Definition parse_target (s3path : string) : exc (string * string) :=
  (bucket <- getitem (split slash (Some 1) s3path) 0;;
   key <- parse_prefix s3path;;
   Return (bucket, key))%py.

(** [__init__(self, local, s3path, meta, profile)] *)
Definition init (local s3path : string) (meta : text) (profile : string)
  : M W SmartS3Sync :=
  target <- lift (parse_target s3path);;
  localToKeys <- find_dirs target.2 local local;;
  metas <- lift (parse_meta meta);;
  ret {| local := local; s3path := s3path;
         bucket := target.1; key := target.2;
         localToKeys := localToKeys;
         metadir := metas.1; metafile := metas.2;
         profile := profile |}.

(** The [__main__] block. *)
Definition main : M W unit :=
  s3_sync <- init (opt_localdir options) (opt_s3path options)
                  (opt_metadata options) (opt_profile options);;
  sync s3_sync.

End Script.

End S3Sync.

(** ** s3upv2.py

    The earlier variant of the tool, without [--profile].  Its
    [--metadata] option has no default, so the option may be [None]. *)

Module S3UpV2.
Import Py.

Record Options : Type := {
  opt_localdir : string;            (* options['<localdir>'] *)
  opt_s3key : string;               (* options['<s3key>'] *)
  opt_metadata : option text        (* options['--metadata'] *)
}.

Section Script.
Variable options : Options.

(** [parse_meta(self, meta)] *)
Definition parse_meta (meta : option text) : exc (text * text) :=
  (metadir <- json_loads_opt (opt_metadata options);;
   metadir <- json_setitem metadir "mode" (JStr "509");;
   let metadirjs := json_dumps metadir in
   metafile <- json_loads_opt (opt_metadata options);;
   metafile <- json_setitem metafile "mode" (JStr "33204");;
   let metafilejs := json_dumps metafile in
   Return (metadirjs, metafilejs))%py.

End Script.

End S3UpV2.

(** ** Two worlds *)

(** A bucket in which every well-formed request takes effect: the store is
    a finite map from (bucket, key) to the metadata of the object. *)
Module Store.
Import Py Os.

(** The [--metadata] argument as the command line reads it: a JSON object
    whose values are strings; anything else is refused. *)
Fixpoint strings_of (d : dict) : option (list (string * string)) :=
  match d with
  | [] => Some []
  | (k, JStr v) :: d' =>
      match strings_of d' with
      | Some md => Some ((k, v) :: md)
      | None => None
      end
  | _ => None
  end.

Definition metadata_arg (t : text) : option (list (string * string)) :=
  match t with
  | Json (JObj d) => strings_of d
  | _ => None
  end.

Record bucket_world : Type := BucketWorld {
  (** what [find local -type d | sort -n] prints, for each [local] *)
  listing : string → string;
  (** what a bulk transfer from [local] to [s3url] does to the objects *)
  transfer : string → string → text →
             gmap (string * string) (list (string * string)) →
             gmap (string * string) (list (string * string));
  objects : gmap (string * string) (list (string * string))
}.

Definition with_objects (w : bucket_world)
    (o : gmap (string * string) (list (string * string))) : bucket_world :=
  BucketWorld (listing w) (transfer w) o.

(** The source of a copy, [bucket/key], split at its first slash. *)
Definition copy_source_of (src : string) : option (string * string) :=
  match split S3Sync.slash (Some 1) src with
  | [b; k] => Some (b, k)
  | _ => None
  end.

(** S3 keeps the names of user metadata in lower case. *)
Definition lower_char (c : ascii) : ascii :=
  let n := nat_of_ascii c in
  if (65 <=? n) && (n <=? 90) then ascii_of_nat (n + 32) else c.

Fixpoint lower (s : string) : string :=
  match s with
  | EmptyString => EmptyString
  | String c s' => String (lower_char c) (lower s')
  end.

Definition stored (md : list (string * string)) : list (string * string) :=
  map (fun kv => (lower kv.1, kv.2)) md.

(** The command line refuses a request whose key is empty; an accepted
    create or replacement stores the metadata under lower-case names. *)
Definition store_step (w : bucket_world) (e : event) : bucket_world :=
  match e with
  | put_object b k md _ =>
      if String.eqb k "" then w
      else
        match metadata_arg md with
        | Some a => with_objects w (<[(b, k) := stored a]> (objects w))
        | None => w
        end
  | copy_object b k src md directive _ =>
      if String.eqb k "" then w
      else
        match copy_source_of src with
        | Some from =>
            match objects w !! from with
            | Some old =>
                if String.eqb directive "REPLACE" then
                  match metadata_arg md with
                  | Some a => with_objects w (<[(b, k) := stored a]> (objects w))
                  | None => w
                  end
                else with_objects w (<[(b, k) := old]> (objects w))
            | None => w
            end
        | None => w
        end
  | aws_sync l url md _ => with_objects w (transfer w l url md (objects w))
  | head_object _ _ _ => w
  | find_sort _ => w
  | stderr_write _ => w
  end.

#[export] Instance bucket_World : World bucket_world := {
  head_result w b k _ :=
    if String.eqb k "" then OtherError RequestRefused
    else
      match objects w !! (b, k) with
      | Some md => Found md
      | None => NotFound
      end;
  find_output w l := listing w l;
  world_step := store_step
}.

End Store.

(** A world that answers every lookup from a fixed table and every [find]
    with a fixed output, and that no command changes: a store that is out
    of reach, or read-only. *)
Module Fixed.
Import Py Os.

Record fixed_world : Type := FixedWorld {
  answers : string → string → lookup;
  found_dirs : string
}.

#[export] Instance fixed_World : World fixed_world := {
  head_result w b k _ := answers w b k;
  find_output w _ := found_dirs w;
  world_step w _ := w
}.

End Fixed.

(** ** Reading logs and listings *)

Module Observe.
Import Py Os.

(** What a command that prints one path per line writes: every line is
    followed by a newline. *)
Fixpoint unlines (lines : list string) : string :=
  match lines with
  | [] => ""
  | l :: lines' => l +:+ String S3Sync.newline (unlines lines')
  end.

(** The same lines with the newlines between them only. *)
Fixpoint join_lines (lines : list string) : string :=
  match lines with
  | [] => ""
  | [l] => l
  | l :: lines' => l +:+ String S3Sync.newline (join_lines lines')
  end.

Definition is_lookup (e : event) : bool :=
  match e with
  | head_object _ _ _ => true
  | _ => false
  end.

Definition is_aws (e : event) : bool :=
  match e with
  | head_object _ _ _ => true
  | copy_object _ _ _ _ _ _ => true
  | put_object _ _ _ _ => true
  | aws_sync _ _ _ _ => true
  | find_sort _ => false
  | stderr_write _ => false
  end.

(** The lookups of a log, in order. *)
Definition lookups (l : list event) : list event := List.filter is_lookup l.

(** The bucket, the key and the profile that an [aws s3api] command
    addresses. *)
Definition addressed (e : event) : option (string * string * string) :=
  match e with
  | head_object b k p => Some (b, k, p)
  | copy_object b k _ _ _ p => Some (b, k, p)
  | put_object b k _ p => Some (b, k, p)
  | _ => None
  end.

(** A copy is in place when it copies an object onto itself and replaces
    its metadata. *)
Definition in_place (e : event) : Prop :=
  match e with
  | copy_object b k src _ directive _ =>
      src = b +:+ "/" +:+ k ∧ directive = "REPLACE"
  | _ => True
  end.

(** The answer "found, with metadata". *)
Definition with_metadata (r : lookup) : Prop :=
  ∃ md, r = Found md ∧ md ≠ [].

(** A world in which the creates and updates that [verify_keys] issues
    for the keys of a list take effect: in the bucket [b] and under the
    profile [p], once [meta] has been put on a key of the list, or has
    replaced the empty metadata of one, the key is found with metadata;
    such a command leaves the keys of the list that are found with metadata
    so; and a lookup or a line on standard error changes no answer for
    them. *)
Record takes_effect {W} `{World W} (b p : string) (meta : text)
    (keys : list string) : Prop := {
  lookup_quiet : ∀ w k k',
    k' ∈ keys →
    head_result (world_step w (head_object b k p)) b k' p = head_result w b k' p;
  stderr_quiet : ∀ w msg k',
    k' ∈ keys →
    head_result (world_step w (stderr_write msg)) b k' p = head_result w b k' p;
  put_effect : ∀ w k,
    k ∈ keys →
    with_metadata (head_result (world_step w (put_object b k meta p)) b k p);
  copy_effect : ∀ w k,
    k ∈ keys →
    head_result w b k p = Found [] →
    with_metadata
      (head_result
         (world_step w (copy_object b k (b +:+ "/" +:+ k) meta "REPLACE" p))
         b k p);
  put_keeps : ∀ w k k',
    k ∈ keys → k' ∈ keys →
    with_metadata (head_result w b k' p) →
    with_metadata (head_result (world_step w (put_object b k meta p)) b k' p);
  copy_keeps : ∀ w k k',
    k ∈ keys → k' ∈ keys →
    with_metadata (head_result w b k' p) →
    with_metadata
      (head_result
         (world_step w (copy_object b k (b +:+ "/" +:+ k) meta "REPLACE" p))
         b k' p)
}.

End Observe.

(** ** Sample inputs *)

Module Sample.
Import Py Os S3Sync.

(** The default of [--metadata] in the usage text. *)
Definition default_base : dict := [("uid", JStr "6812"); ("gid", JStr "6812")].

Definition options : Options := {|
  opt_localdir := "root";
  opt_s3path := "bkt/dest/";
  opt_metadata := Json (JObj default_base);
  opt_profile := "default"
|}.

(** The same, with a target that does not end in a slash. *)
Definition options_open : Options := {|
  opt_localdir := "root";
  opt_s3path := "bucket/a/b";
  opt_metadata := Json (JObj default_base);
  opt_profile := "default"
|}.

(** The object [__main__] builds from [options] (over a tree whose
    directories are [root], [root/a] and [root/b]). *)
Definition dest : SmartS3Sync := {|
  local := "root";
  s3path := "bkt/dest/";
  bucket := "bkt";
  key := "dest/";
  localToKeys := ["dest//"; "dest/a/"; "dest/b/"];
  metadir := Json (JObj (default_base ++ [("mode", JStr "509")]));
  metafile := Json (JObj (default_base ++ [("mode", JStr "33204")]));
  profile := "default"
|}.

Definition tree : string :=
  "root" +:+ String newline ("root/a" +:+ String newline
    ("root/b" +:+ String newline "")).

(** A bucket that holds [dest/a/] without metadata and [dest/b/] with. *)
Definition bucket_state : Store.bucket_world :=
  Store.BucketWorld (fun _ => tree) (fun _ _ _ o => o)
    (<[("bkt", "dest/a/") := []]>
       (<[("bkt", "dest/b/") := [("mode", "509")]]> ∅)).

(** A store that refuses every lookup, over a local path that [find]
    cannot enter (it prints nothing on standard output). *)
Definition denied : Fixed.fixed_world :=
  Fixed.FixedWorld (fun _ _ => OtherError PermissionDenied) "".

(** An empty store, over a local tree that is only its root. *)
Definition empty_store : Fixed.fixed_world :=
  Fixed.FixedWorld (fun _ _ => NotFound) ("root" +:+ String newline "").

(** The options and the object for the target that is a bucket alone. *)
Definition options_root : Options := {|
  opt_localdir := "root";
  opt_s3path := "bkt/";
  opt_metadata := Json (JObj default_base);
  opt_profile := "default"
|}.

Definition bucket_root : SmartS3Sync := {|
  local := "root";
  s3path := "bkt/";
  bucket := "bkt";
  key := "";
  localToKeys := ["/"; "a/"; "b/"];
  metadir := Json (JObj (default_base ++ [("mode", JStr "509")]));
  metafile := Json (JObj (default_base ++ [("mode", JStr "33204")]));
  profile := "default"
|}.

(** A bucket without objects, over the same tree. *)
Definition empty_bucket : Store.bucket_world :=
  Store.BucketWorld (fun _ => tree) (fun _ _ _ o => o) ∅.

End Sample.

Import Py Os S3Sync Store Fixed Observe.

(** * Facts about the built-ins *)

Section StringFacts.

Lemma split_cons sep ms s : ∃ h t, split sep ms s = h :: t.
Proof.
  revert ms. induction s as [|c s IH]; intros ms; simpl; [by eauto|].
  destruct (Ascii.eqb c sep).
  - destruct ms as [[|n]|]; [|by eauto..].
    destruct (IH (Some 0)) as (h & t & ->). by eauto.
  - destruct (IH ms) as (h & t & ->). by eauto.
Qed.

Lemma split_without sep ms s : has_char sep s = false → split sep ms s = [s].
Proof.
  induction s as [|c s IH]; simpl; [done|].
  intros [Hc Hs]%orb_false_iff. rewrite Hc, (IH Hs). done.
Qed.

Lemma split_exhausted sep s : split sep (Some 0) s = [s].
Proof.
  induction s as [|c s IH]; simpl; [done|].
  rewrite IH. by destruct (Ascii.eqb c sep).
Qed.

(** Splitting once cuts at the first separator. *)
Lemma split_once sep b p :
  has_char sep b = false →
  split sep (Some 1) (b +:+ String sep p) = [b; p].
Proof.
  induction b as [|c b IH]; simpl.
  - intros _. rewrite Ascii.eqb_refl, split_exhausted. done.
  - intros [Hc Hb]%orb_false_iff. rewrite Hc, (IH Hb). done.
Qed.

(** The first piece of a split holds no separator, when splits are allowed. *)
Lemma split_head_clean sep n s h t :
  split sep (Some (S n)) s = h :: t → has_char sep h = false.
Proof.
  revert h t. induction s as [|c s IH]; simpl; intros h t.
  - by intros [= <- <-].
  - destruct (Ascii.eqb c sep) eqn:Hc.
    + by intros [= <- <-].
    + destruct (split_cons sep (Some (S n)) s) as (h' & t' & E).
      rewrite E. intros [= <- <-]. simpl. rewrite Hc. simpl. eauto.
Qed.

Lemma last_char_snoc s c : last_char (s +:+ String c "") = Some c.
Proof.
  induction s as [|a s IH]; simpl; [done|].
  rewrite IH. by destruct s.
Qed.

Lemma append_cons c (a b : string) : String c a +:+ b = String c (a +:+ b).
Proof. reflexivity. Qed.

Lemma app_assoc_str (a b c : string) : (a +:+ b) +:+ c = a +:+ b +:+ c.
Proof.
  induction a as [|x a IH]; [done|]. rewrite !append_cons. by f_equal.
Qed.

Lemma last_char_slash a b : last_char (a +:+ b +:+ "/") = Some "/"%char.
Proof. rewrite <- app_assoc_str. apply last_char_snoc. Qed.

Lemma slice_from_past n s : String.length s ≤ n → slice_from n s = "".
Proof.
  revert n. induction s as [|c s IH]; intros [|n]; simpl; try done; try lia.
  intros Hn. apply IH. lia.
Qed.

Lemma rstrip_snoc_space s c : isspace c = true → rstrip (s +:+ String c "") = rstrip s.
Proof.
  intros Hc. induction s as [|a s IH]; simpl.
  - by rewrite Hc.
  - by rewrite IH.
Qed.

Lemma strip_snoc_space s c : isspace c = true → strip (s +:+ String c "") = strip s.
Proof.
  intros Hc. unfold strip. induction s as [|a s IH]; simpl.
  - by rewrite Hc.
  - destruct (isspace a); [done|].
    change (String a (s +:+ String c "")) with (String a s +:+ String c "").
    by apply rstrip_snoc_space.
Qed.

Lemma lstrip_length s : String.length (lstrip s) ≤ String.length s.
Proof.
  induction s as [|a s IH]; simpl; [done|].
  destruct (isspace a); simpl; lia.
Qed.

Lemma rstrip_length s : String.length (rstrip s) ≤ String.length s.
Proof.
  induction s as [|a s IH]; simpl; [done|].
  destruct (rstrip s); [destruct (isspace a)|]; simpl in *; lia.
Qed.

Lemma strip_length s : String.length (strip s) ≤ String.length s.
Proof.
  unfold strip. etrans; [apply rstrip_length | apply lstrip_length].
Qed.

Lemma lstrip_without c s : has_char c s = false → has_char c (lstrip s) = false.
Proof.
  induction s as [|a s IH]; simpl; [done|].
  intros [Ha Hs]%orb_false_iff. destruct (isspace a); [eauto|].
  simpl. by rewrite Ha, Hs.
Qed.

Lemma rstrip_without c s : has_char c s = false → has_char c (rstrip s) = false.
Proof.
  induction s as [|a s IH]; simpl; [done|].
  intros [Ha Hs]%orb_false_iff. specialize (IH Hs).
  destruct (rstrip s); [destruct (isspace a)|]; simpl in *; [done|..].
  - by rewrite Ha.
  - by rewrite Ha, IH.
Qed.

Lemma strip_without c s : has_char c s = false → has_char c (strip s) = false.
Proof. intros Hs. by apply rstrip_without, lstrip_without. Qed.

End StringFacts.

(** * The pure methods *)

Section PureMethods.

Lemma dict_set_to_map k v (d : dict) :
  list_to_map (dict_set k v d) =@{gmap string json} <[k := v]> (list_to_map d).
Proof.
  induction d as [|[k' v'] d IH]; simpl; [done|].
  destruct (String.eqb_spec k' k) as [->|Hne]; simpl.
  - by rewrite insert_insert_eq.
  - rewrite IH. by apply insert_insert_ne.
Qed.

Lemma dict_get_set k v d : dict_get k (dict_set k v d) = Some v.
Proof.
  induction d as [|[k' v'] d IH]; simpl.
  - by rewrite String.eqb_refl.
  - destruct (String.eqb k' k) eqn:E; simpl; by rewrite E.
Qed.

Lemma dict_get_set_ne k k' v d :
  k ≠ k' → dict_get k' (dict_set k v d) = dict_get k' d.
Proof.
  intros Hne. induction d as [|[k0 v0] d IH]; simpl.
  - by apply String.eqb_neq in Hne as ->.
  - destruct (String.eqb_spec k0 k) as [->|Hk]; simpl.
    + by apply String.eqb_neq in Hne as ->.
    + by rewrite IH.
Qed.

(** A key that is new goes last; the others keep their order. *)
Lemma dict_set_fresh k v d : dict_get k d = None → dict_set k v d = d ++ [(k, v)].
Proof.
  induction d as [|[k' v'] d IH]; simpl; [done|].
  destruct (String.eqb k' k); [done|]. intros Hd. by rewrite IH.
Qed.

Lemma parse_meta_object options meta base :
  opt_metadata options = Json (JObj base) →
  parse_meta options meta =
    Return (Json (JObj (dict_set "mode" (JStr "509") base)),
            Json (JObj (dict_set "mode" (JStr "33204") base))).
Proof. intros E. unfold parse_meta. by rewrite E. Qed.

Lemma parse_prefix_without path :
  has_char slash path = false → parse_prefix path = Return path.
Proof. intros Hp. unfold parse_prefix. by rewrite split_without. Qed.

Lemma parse_prefix_cut b p :
  has_char slash b = false → parse_prefix (b +:+ "/" +:+ p) = Return p.
Proof.
  intros Hb. unfold parse_prefix.
  change (b +:+ "/" +:+ p) with (b +:+ String slash p).
  by rewrite split_once.
Qed.

Lemma parse_target_cut b p :
  has_char slash b = false → parse_target (b +:+ "/" +:+ p) = Return (b, p).
Proof.
  intros Hb. unfold parse_target. rewrite (parse_prefix_cut _ _ Hb).
  change (b +:+ "/" +:+ p) with (b +:+ String slash p).
  by rewrite split_once.
Qed.

(** C3. For every base attribute mapping that [--metadata] spells,
    [parse_meta] returns two attribute sets: the directory set is the base
    with ["mode"] bound to ["509"], the file set is the base with ["mode"]
    bound to ["33204"]; a ["mode"] of the base is overwritten (the policy's
    value is the one read back, every other key reads as in the base), a
    base without ["mode"] gets it as its last key; for the base
    [{"uid":"6812","gid":"6812"}] the two sets are the base followed by the
    policy's mode. *)
Theorem parse_meta_policy options meta base :
  opt_metadata options = Json (JObj base) →
  ∃ d f,
    parse_meta options meta = Return (json_dumps (JObj d), json_dumps (JObj f))
    ∧ list_to_map d =@{gmap string json} <["mode" := JStr "509"]> (list_to_map base)
    ∧ list_to_map f =@{gmap string json} <["mode" := JStr "33204"]> (list_to_map base)
    ∧ dict_get "mode" d = Some (JStr "509")
    ∧ dict_get "mode" f = Some (JStr "33204")
    ∧ (∀ k, k ≠ "mode" → dict_get k d = dict_get k base ∧ dict_get k f = dict_get k base)
    ∧ (dict_get "mode" base = None →
         d = base ++ [("mode", JStr "509")] ∧ f = base ++ [("mode", JStr "33204")])
    ∧ (base = Sample.default_base →
         d = [("uid", JStr "6812"); ("gid", JStr "6812"); ("mode", JStr "509")]
         ∧ f = [("uid", JStr "6812"); ("gid", JStr "6812"); ("mode", JStr "33204")]).
Proof.
  intros E.
  exists (dict_set "mode" (JStr "509") base), (dict_set "mode" (JStr "33204") base).
  split; [by apply parse_meta_object|].
  split; [apply dict_set_to_map|]. split; [apply dict_set_to_map|].
  split; [apply dict_get_set|]. split; [apply dict_get_set|]. split.
  - intros k Hk. split; apply dict_get_set_ne; congruence.
  - split; [|by intros ->].
    intros Hfresh. split; by apply dict_set_fresh.
Qed.

Lemma parse_meta_policy_witness :
  opt_metadata Sample.options = Json (JObj Sample.default_base)
  ∧ ∃ d f,
      parse_meta Sample.options (opt_metadata Sample.options)
        = Return (json_dumps (JObj d), json_dumps (JObj f))
      ∧ dict_get "mode" d = Some (JStr "509")
      ∧ dict_get "mode" f = Some (JStr "33204").
Proof.
  split; [reflexivity|].
  destruct (parse_meta_policy Sample.options (opt_metadata Sample.options)
              Sample.default_base eq_refl)
    as (d & f & Hrun & _ & _ & Hd & Hf & _).
  exists d, f. auto.
Defined.

(** C8. On ["bucket/a/b"] [parse_prefix] returns ["a/b"]; on ["bucket"],
    which holds no slash, it returns the whole string ["bucket"] and not the
    empty prefix. *)
Theorem parse_prefix_bucket_only :
  parse_prefix "bucket/a/b" = Return "a/b"
  ∧ parse_prefix "bucket" = Return "bucket"
  ∧ parse_prefix "bucket" ≠ Return "".
Proof. repeat split; [reflexivity..|discriminate]. Qed.

(** C9, the claim refuted: the empty target is accepted, with an empty
    bucket and an empty prefix. *)
Lemma parse_target_empty_accepted :
  parse_target "" = Return ("", "") ∧ ¬ ∃ e, parse_target "" = Raise e.
Proof. split; [reflexivity|]. intros [e He]. discriminate He. Qed.

(** C9, as the code has it. The translation of a target never fails, the
    empty target included (bucket and prefix are then empty); the bucket
    holds no slash, and a target [b/p] whose [b] holds no slash is split at
    that first slash into bucket [b] and prefix [p]. *)
Theorem parse_target_total target :
  ∃ b p,
    parse_target target = Return (b, p)
    ∧ has_char slash b = false
    ∧ (target = "" → b = "" ∧ p = "")
    ∧ (∀ b' p', has_char slash b' = false → target = b' +:+ "/" +:+ p' →
                b = b' ∧ p = p').
Proof.
  assert (∃ b p, parse_target target = Return (b, p) ∧ has_char slash b = false)
    as (b & p & Hrun & Hb).
  { unfold parse_target, parse_prefix.
    destruct (split_cons slash (Some 1) target) as (h & t & E). rewrite E.
    pose proof (split_head_clean _ _ _ _ _ E) as Hh.
    destruct t as [|p t]; simpl; eauto. }
  exists b, p. split; [done|]. split; [done|]. split.
  - intros ->. by injection Hrun as <- <-.
  - intros b' p' Hb' ->. rewrite (parse_target_cut _ _ Hb') in Hrun.
    by injection Hrun as <- <-.
Qed.

Lemma parse_target_total_witness :
  has_char slash "bkt" = false
  ∧ parse_target "bkt/dest/" = Return ("bkt", "dest/").
Proof.
  split; [reflexivity|].
  destruct (parse_target_total "bkt/dest/") as (b & p & Hrun & _ & _ & Hcut).
  destruct (Hcut "bkt" "dest/" eq_refl eq_refl) as [-> ->]. exact Hrun.
Defined.

(** C10. [parse_meta] does not depend on its [meta] argument: with the
    global [options] fixed, any two arguments give the same pair, in
    s3sync.py and in s3upv2.py alike; what it returns is read from
    [options], and changes with it. *)
Theorem parse_meta_ignores_argument :
  (∀ options meta1 meta2,
     S3Sync.parse_meta options meta1 = S3Sync.parse_meta options meta2)
  ∧ (∀ options meta1 meta2,
       S3UpV2.parse_meta options meta1 = S3UpV2.parse_meta options meta2)
  ∧ (∃ options1 options2 meta,
       S3Sync.parse_meta options1 meta ≠ S3Sync.parse_meta options2 meta).
Proof.
  split; [reflexivity|]. split; [reflexivity|].
  exists Sample.options,
    {| opt_localdir := "root"; opt_s3path := "bkt/dest/";
       opt_metadata := Json (JObj []); opt_profile := "default" |},
    (NotJson "").
  discriminate.
Qed.

End PureMethods.

(** * Running the methods *)

Section Runs.
Context {W : Type} `{World W}.

Lemma bind_ret_l {A B} (a : A) (f : A → M W B) m : bind (ret a) f m = f a m.
Proof. unfold bind, ret. by destruct (f a m) as [[r m'] ev]. Qed.

Lemma bind_assoc {A B C} (c : M W A) (f : A → M W B) (g : B → M W C) m :
  bind (bind c f) g m = bind c (fun x => bind (f x) g) m.
Proof.
  unfold bind. destruct (c m) as [[[a|e] m1] ev1]; [|done].
  destruct (f a m1) as [[[b|e] m2] ev2]; [|done].
  destruct (g b m2) as [[r m3] ev3]. by rewrite app_assoc.
Qed.

Lemma machine_eta (m : machine W) : Machine (aws_installed m) (world m) = m.
Proof. by destruct m. Qed.

(** What [find_dirs] does: it cannot fail. *)
Lemma find_dirs_run self_key self_local l m :
  find_dirs self_key self_local l m =
    (Return (map (fun k => self_key +:+ slice_from (String.length self_local + 1) k
                            +:+ "/")
                 (split newline None (strip (find_output (world m) l)))),
     Machine (aws_installed m) (world_step (world m) (find_sort l)),
     [find_sort l]).
Proof. reflexivity. Qed.

(** What one turn of the loop of [verify_keys] does when [aws] runs. *)
Lemma verify_key_installed self k meta m :
  aws_installed m = true →
  verify_key self k meta m =
    let w := world m in
    let look := head_object (bucket self) k (profile self) in
    match head_result w (bucket self) k (profile self) with
    | Found (_ :: _) => (Return tt, Machine true (world_step w look), [look])
    | Found [] =>
        let note := stderr_write ("no metadata found for " +:+ k +:+ " updating..."
                                  +:+ String newline "") in
        let upd := copy_object (bucket self) k (bucket self +:+ "/" +:+ k) meta
                               "REPLACE" (profile self) in
        (Return tt,
         Machine true (world_step (world_step (world_step w look) note) upd),
         [look; note; upd])
    | _ =>
        let note := stderr_write ("creating key '" +:+ k +:+ "'"
                                  +:+ String newline "") in
        let put := put_object (bucket self) k meta (profile self) in
        (Return tt,
         Machine true (world_step (world_step (world_step w look) note) put),
         [look; note; put])
    end.
Proof.
  destruct m as [i w]. simpl. intros ->.
  unfold verify_key, try_except, bind, key_exists, popen_head_object, spawn_aws,
    emit, lift, meta_check, meta_update, create_key. simpl.
  destruct (head_result w (bucket self) k (profile self)) as [[|kv md]| |c];
    reflexivity.
Qed.

(** Without [aws] the lookup raises, the handler announces a creation and
    the creation raises in turn. *)
Lemma verify_key_not_installed self k meta m :
  aws_installed m = false →
  verify_key self k meta m =
    let note := stderr_write ("creating key '" +:+ k +:+ "'"
                              +:+ String newline "") in
    (Raise FileNotFoundError, Machine false (world_step (world m) note), [note]).
Proof.
  destruct m as [i w]. simpl. intros ->. reflexivity.
Qed.

Lemma verify_keys_cons self k keys meta m :
  verify_keys self (k :: keys) meta m =
    bind (verify_key self k meta) (fun _ => verify_keys self keys meta) m.
Proof. reflexivity. Qed.

Lemma verify_keys_app self keys1 keys2 meta m :
  verify_keys self (keys1 ++ keys2) meta m =
    bind (verify_keys self keys1 meta) (fun _ => verify_keys self keys2 meta) m.
Proof.
  revert m. induction keys1 as [|k keys1 IH]; intros m.
  - simpl. by rewrite bind_ret_l.
  - cbn [verify_keys app]. unfold bind in *.
    destruct (verify_key self k meta m) as [[[[]|e] m1] ev1]; [|done].
    rewrite IH.
    destruct (verify_keys self keys1 meta m1) as [[[[]|e] m2] ev2]; [|done].
    destruct (verify_keys self keys2 meta m2) as [[r m3] ev3].
    by rewrite app_assoc.
Qed.

Lemma verify_key_keeps_installed self k meta m :
  aws_installed (final (verify_key self k meta m)) = aws_installed m.
Proof.
  destruct (aws_installed m) eqn:E.
  - rewrite (verify_key_installed _ _ _ _ E). simpl.
    by destruct (head_result _ _ _ _) as [[|? ?]| |].
  - by rewrite (verify_key_not_installed _ _ _ _ E).
Qed.

Lemma verify_key_result self k meta m :
  result (verify_key self k meta m) =
    if aws_installed m then Return tt else Raise FileNotFoundError.
Proof.
  destruct (aws_installed m) eqn:E.
  - rewrite (verify_key_installed _ _ _ _ E). simpl.
    by destruct (head_result _ _ _ _) as [[|? ?]| |].
  - by rewrite (verify_key_not_installed _ _ _ _ E).
Qed.

Lemma verify_keys_keeps_installed self keys meta m :
  aws_installed (final (verify_keys self keys meta m)) = aws_installed m.
Proof.
  revert m. induction keys as [|k keys IH]; intros m; [done|].
  rewrite verify_keys_cons. unfold bind.
  pose proof (verify_key_keeps_installed self k meta m) as Hk.
  destruct (verify_key self k meta m) as [[[[]|e] m1] ev1]; [|done].
  specialize (IH m1).
  destruct (verify_keys self keys meta m1) as [[r m2] ev2].
  unfold final in *. simpl in *. congruence.
Qed.

Lemma verify_keys_result self keys meta m :
  result (verify_keys self keys meta m) =
    match keys with
    | [] => Return tt
    | _ :: _ => if aws_installed m then Return tt else Raise FileNotFoundError
    end.
Proof.
  revert m. induction keys as [|k keys IH]; intros m; [done|].
  rewrite verify_keys_cons. unfold bind.
  pose proof (verify_key_keeps_installed self k meta m) as Hk.
  pose proof (verify_key_result self k meta m) as Hr.
  destruct (verify_key self k meta m) as [[[[]|e] m1] ev1].
  - specialize (IH m1).
    destruct (verify_keys self keys meta m1) as [[r m2] ev2].
    unfold result, final in *. simpl in *. subst r.
    destruct (aws_installed m); [|done]. rewrite Hk. by destruct keys.
  - unfold result in *. simpl in *. by destruct (aws_installed m).
Qed.

Lemma verify_keys_returns self keys meta m :
  aws_installed m = true → result (verify_keys self keys meta m) = Return tt.
Proof. intros Hi. rewrite verify_keys_result, Hi. by destruct keys. Qed.

(** The events of a turn: no bulk transfer, and a create or an update only
    of the key of the turn, with the attributes passed. *)
Lemma verify_key_events self k meta m :
  Forall (fun e => is_bulk e = false
                   ∧ ∀ k', mutated_key e = Some k' → k' = k ∧ attached e = Some meta)
         (events (verify_key self k meta m)).
Proof.
  destruct (aws_installed m) eqn:E.
  - rewrite (verify_key_installed _ _ _ _ E). simpl.
    destruct (head_result _ _ _ _) as [[|? ?]| |]; simpl;
      repeat match goal with
             | |- Forall _ _ => constructor
             end;
      (split; [done|]; intros k' Hk'; simpl in Hk';
       try discriminate; by injection Hk' as <-).
  - rewrite (verify_key_not_installed _ _ _ _ E). simpl.
    constructor; [|constructor]. split; [done|]. intros k' Hk'. discriminate Hk'.
Qed.

Lemma verify_keys_events self keys meta m :
  Forall (fun e => is_bulk e = false
                   ∧ ∀ k, mutated_key e = Some k → k ∈ keys ∧ attached e = Some meta)
         (events (verify_keys self keys meta m)).
Proof.
  revert m. induction keys as [|k keys IH]; intros m; [by constructor|].
  rewrite verify_keys_cons. unfold bind.
  pose proof (verify_key_events self k meta m) as Hk.
  destruct (verify_key self k meta m) as [[[[]|e] m1] ev1]; unfold events in *; simpl in *.
  - specialize (IH m1).
    destruct (verify_keys self keys meta m1) as [[r m2] ev2]. simpl in *.
    apply Forall_app. split.
    + eapply Forall_impl; [exact Hk|]. intros e [Hb Hm]. split; [done|].
      intros k' Hk'. destruct (Hm _ Hk') as [-> ?]. split; [left|done].
    + eapply Forall_impl; [exact IH|]. intros e [Hb Hm]. split; [done|].
      intros k' Hk'. destruct (Hm _ Hk') as [? ?]. split; [by right|done].
  - eapply Forall_impl; [exact Hk|]. intros e' [Hb Hm]. split; [done|].
    intros k' Hk'. destruct (Hm _ Hk') as [-> ?]. split; [left|done].
Qed.

(** A lookup that fails for another reason than absence is handled like
    absence: the key is created. *)
Lemma verify_key_on_failure self k meta m cause :
  aws_installed m = true →
  head_result (world m) (bucket self) k (profile self) = OtherError cause →
  result (verify_key self k meta m) = Return tt
  ∧ mutations (events (verify_key self k meta m))
    = [put_object (bucket self) k meta (profile self)].
Proof.
  intros Hi Ha. rewrite (verify_key_installed _ _ _ _ Hi). simpl. by rewrite Ha.
Qed.

(** C2. For every key of the list, at its turn: when the store answers not
    found, the turn issues one [put-object] and no other create or update,
    with the directory attributes; when the key exists with empty metadata,
    one [copy-object] onto itself with directive REPLACE and nothing else;
    when it exists with non-empty metadata, no create or update at all.
    The log of the whole list is the log of the turns, in list order. *)
Theorem verify_keys_per_key self before k after m :
  aws_installed m = true →
  let meta := metadir self in
  let mk := final (verify_keys self before meta m) in
  let turn := verify_key self k meta mk in
  let answer := head_result (world mk) (bucket self) k (profile self) in
  events (verify_keys self (before ++ k :: after) meta m)
    = events (verify_keys self before meta m) ++ events turn
      ++ events (verify_keys self after meta (final turn))
  ∧ (answer = NotFound →
       mutations (events turn) = [put_object (bucket self) k meta (profile self)])
  ∧ (answer = Found [] →
       mutations (events turn)
       = [copy_object (bucket self) k (bucket self +:+ "/" +:+ k) meta
                      "REPLACE" (profile self)])
  ∧ (∀ md, md ≠ [] → answer = Found md → mutations (events turn) = []).
Proof.
  intros Hi meta mk turn answer.
  assert (aws_installed mk = true) as Hk.
  { unfold mk. by rewrite verify_keys_keeps_installed. }
  split.
  - rewrite verify_keys_app. unfold bind.
    pose proof (verify_keys_returns self before meta m Hi) as Hr1.
    subst turn mk.
    destruct (verify_keys self before meta m) as [[r1 m1] ev1].
    unfold result, final, events in *. cbn [fst snd] in *. subst r1.
    rewrite verify_keys_cons. unfold bind.
    pose proof (verify_key_result self k meta m1) as Hr2. rewrite Hk in Hr2.
    destruct (verify_key self k meta m1) as [[r2 m2] ev2].
    unfold result in Hr2. cbn [fst snd] in *. subst r2.
    by destruct (verify_keys self after meta m2) as [[r3 m3] ev3].
  - subst turn answer. rewrite (verify_key_installed _ _ _ _ Hk). simpl.
    split; [by intros ->|]. split; [by intros ->|].
    intros [|kv md] Hmd ->; done.
Qed.

(** The run of [sync], step by step. *)
Lemma sync_run self m :
  let root := verify_keys self [key self] (metadir self) m in
  let subdirs :=
    verify_keys self (drop 1 (localToKeys self)) (metadir self) (final root) in
  let bulk :=
    aws_sync (local self) ("s3://" +:+ s3path self) (metafile self) (profile self) in
  events (sync self m)
    = events root ++
      match result root with
      | Return _ =>
          events subdirs ++
          match result subdirs with
          | Return _ => [bulk]
          | Raise _ => []
          end
      | Raise _ => []
      end
  ∧ (result (sync self m) = Return tt
     ↔ result root = Return tt ∧ result subdirs = Return tt)
  ∧ Forall (fun e => is_bulk e = false
                     ∧ (is_mutation e = true → attached e = Some (metadir self)))
           (events root ++ events subdirs)
  ∧ attached bulk = Some (metafile self).
Proof.
  intros root subdirs bulk. subst root subdirs.
  pose proof (verify_keys_result self [key self] (metadir self) m) as Hr1.
  pose proof (verify_keys_keeps_installed self [key self] (metadir self) m) as Hi1.
  pose proof (verify_keys_events self [key self] (metadir self) m) as He1.
  unfold sync, bind, result, final, events in *.
  revert Hr1 Hi1 He1.
  destruct (verify_keys self [key self] (metadir self) m) as [[r1 m1] ev1].
  cbn [fst snd]. intros Hr1 Hi1 He1.
  pose proof (verify_keys_result self (drop 1 (localToKeys self)) (metadir self) m1)
    as Hr2.
  pose proof (verify_keys_keeps_installed self (drop 1 (localToKeys self))
                (metadir self) m1) as Hi2.
  pose proof (verify_keys_events self (drop 1 (localToKeys self)) (metadir self) m1)
    as He2.
  unfold result, final, events in *.
  revert Hr2 Hi2 He2.
  destruct (verify_keys self (drop 1 (localToKeys self)) (metadir self) m1)
    as [[r2 m2] ev2].
  cbn [fst snd]. intros Hr2 Hi2 He2.
  assert (Forall (fun e => is_bulk e = false
                     ∧ (is_mutation e = true → attached e = Some (metadir self)))
                 (ev1 ++ ev2)) as Hshape.
  { apply Forall_app. split; (eapply Forall_impl; [eassumption|]);
      intros e [Hb Hm]; (split; [done|]); unfold is_mutation;
      destruct (mutated_key e) as [k|]; try done; intros _; by destruct (Hm k). }
  destruct (aws_installed m) eqn:Em.
  - subst r1. rewrite Hi1 in Hr2.
    assert (r2 = Return tt) as -> by (by destruct (drop 1 (localToKeys self))).
    unfold spawn_aws. rewrite Hi2, Hi1. simpl. repeat split; done.
  - subst r1. simpl. rewrite app_nil_r. repeat split; try done.
    by intros [? _].
Qed.


(** The keys [sync] creates or updates are the root key and the enumerated
    keys but the first. *)
Lemma sync_mutated_keys self m :
  Forall (fun e => ∀ k, mutated_key e = Some k →
                        k = key self ∨ k ∈ drop 1 (localToKeys self))
         (events (sync self m)).
Proof.
  destruct (sync_run self m) as (-> & _ & _ & _).
  pose proof (verify_keys_events self [key self] (metadir self) m) as He1.
  pose proof (verify_keys_events self (drop 1 (localToKeys self)) (metadir self)
                (final (verify_keys self [key self] (metadir self) m))) as He2.
  assert (∀ l, Forall (fun e => ∀ k, mutated_key e = Some k →
                         k = key self ∨ k ∈ drop 1 (localToKeys self)) l →
               Forall (fun e => ∀ k, mutated_key e = Some k →
                         k = key self ∨ k ∈ drop 1 (localToKeys self))
                 (l ++ match result (verify_keys self (drop 1 (localToKeys self))
                                (metadir self)
                                (final (verify_keys self [key self] (metadir self) m)))
                       with
                       | Return _ =>
                           [aws_sync (local self) ("s3://" +:+ s3path self)
                                     (metafile self) (profile self)]
                       | Raise _ => []
                       end)) as Hbulk.
  { intros l Hl. apply Forall_app. split; [done|].
    destruct (result _); [|by constructor].
    constructor; [|by constructor]. intros k Hk. discriminate Hk. }
  apply Forall_app. split.
  - eapply Forall_impl; [exact He1|]. intros e [_ Hm] k Hk.
    destruct (Hm k Hk) as [Hin _]. left. by apply list_elem_of_singleton in Hin.
  - destruct (result (verify_keys self [key self] (metadir self) m));
      [|by constructor].
    apply Hbulk. eapply Forall_impl; [exact He2|]. intros e [_ Hm] k Hk.
    destruct (Hm k Hk) as [Hin _]. by right.
Qed.

(** C5, as the code has it. [sync] runs its three steps in order: the
    reconciliation of the one-element list of the root key, then that of
    the enumerated keys without their first entry, then the bulk transfer,
    which is issued when both reconciliations returned without raising.
    They return whenever [aws] can be started, whatever the commands
    achieved: the exit status of a command is never read, and [sync]
    returns, the bulk transfer issued, exactly when [aws] can be started.
    The two reconciliations issue no bulk transfer, and every create or
    update they issue carries the directory attributes; the file
    attributes travel with the bulk transfer only. *)
Theorem sync_order self m :
  let root := verify_keys self [key self] (metadir self) m in
  let subdirs :=
    verify_keys self (drop 1 (localToKeys self)) (metadir self) (final root) in
  let bulk :=
    aws_sync (local self) ("s3://" +:+ s3path self) (metafile self) (profile self) in
  events (sync self m)
    = events root ++
      match result root with
      | Return _ =>
          events subdirs ++
          match result subdirs with
          | Return _ => [bulk]
          | Raise _ => []
          end
      | Raise _ => []
      end
  ∧ (result (sync self m) = Return tt
     ↔ result root = Return tt ∧ result subdirs = Return tt)
  ∧ Forall (fun e => is_bulk e = false
                     ∧ (is_mutation e = true → attached e = Some (metadir self)))
           (events root ++ events subdirs)
  ∧ attached bulk = Some (metafile self)
  ∧ (aws_installed m = true →
     result root = Return tt ∧ result subdirs = Return tt)
  ∧ (result (sync self m) = Return tt ↔ aws_installed m = true).
Proof.
  intros root subdirs bulk.
  destruct (sync_run self m) as (Hev & Hres & Hshape & Hatt).
  fold root subdirs bulk in Hev, Hres, Hshape, Hatt.
  split; [exact Hev|]. split; [exact Hres|]. split; [exact Hshape|].
  split; [exact Hatt|].
  pose proof (verify_keys_result self [key self] (metadir self) m) as Hr1.
  pose proof (verify_keys_keeps_installed self [key self] (metadir self) m) as Hi1.
  fold root in Hr1, Hi1.
  assert (aws_installed m = true →
          result root = Return tt ∧ result subdirs = Return tt) as Hok.
  { intros Hi. rewrite Hi in Hr1, Hi1. split; [exact Hr1|].
    by apply verify_keys_returns. }
  split; [exact Hok|]. rewrite Hres. split.
  - intros [Hroot _]. rewrite Hroot in Hr1. by destruct (aws_installed m).
  - exact Hok.
Qed.

End Runs.

Lemma sync_order_witness :
  let m := Machine true Sample.bucket_state in
  aws_installed m = true ∧ result (sync Sample.dest m) = Return tt.
Proof.
  split; [reflexivity|].
  destruct (sync_order Sample.dest (Machine true Sample.bucket_state))
    as (_ & _ & _ & _ & _ & Hret).
  by apply Hret.
Defined.

(** C5, the claim refuted. Over a store that refuses every lookup, and on
    which no command has any effect, both reconciliations of [sync] end
    without one key looked up or created with success; [sync] returns
    all the same and its last command is the bulk transfer. *)
Lemma sync_after_failed_commands :
  let m := Machine true Sample.denied in
  let run := sync Sample.dest m in
  (∀ b k, head_result (world m) b k "default" = OtherError PermissionDenied)
  ∧ world (final run) = world m
  ∧ result run = Return tt
  ∧ last (events run)
    = Some (aws_sync "root" "s3://bkt/dest/" (metafile Sample.dest) "default").
Proof. repeat split. Qed.

Lemma verify_keys_per_key_witness :
  let m := Machine true Sample.bucket_state in
  let mk := final (verify_keys Sample.dest ["dest/"] (metadir Sample.dest) m) in
  aws_installed m = true
  ∧ mutations (events (verify_key Sample.dest "dest/a/" (metadir Sample.dest) mk))
    = [copy_object "bkt" "dest/a/" "bkt/dest/a/" (metadir Sample.dest)
                   "REPLACE" "default"].
Proof.
  split; [reflexivity|].
  destruct (verify_keys_per_key Sample.dest ["dest/"] "dest/a/" ["dest/b/"]
              (Machine true Sample.bucket_state) eq_refl) as (_ & _ & Hupd & _).
  apply Hupd. vm_compute. reflexivity.
Defined.

(** C1, on the code. The store refuses the lookup of [dest/a/] (permission
    denied, not absence); [verify_keys] returns normally, raising nothing,
    and has issued a [put-object] for the key. *)
Theorem lookup_failure_creates :
  let m := Machine true Sample.denied in
  let run := verify_keys Sample.dest ["dest/a/"] (metadir Sample.dest) m in
  head_result (world m) "bkt" "dest/a/" "default" = OtherError PermissionDenied
  ∧ result run = Return tt
  ∧ mutations (events run)
    = [put_object "bkt" "dest/a/" (metadir Sample.dest) "default"].
Proof. repeat split. Qed.

(** * Start-up: the enumeration and the object *)

Section Startup.
Context {W : Type} `{World W}.

Lemma find_dirs_keys self_key self_local l (m : machine W) :
  ∃ keys, result (find_dirs self_key self_local l m) = Return keys
          ∧ keys ≠ []
          ∧ Forall (fun k => last_char k = Some "/"%char) keys.
Proof.
  rewrite find_dirs_run. eexists. split; [reflexivity|]. split.
  - destruct (split_cons newline None (strip (find_output (world m) l)))
      as (h & t & ->). done.
  - apply Forall_map, Forall_true. intros k. apply last_char_slash.
Qed.

Lemma parse_target_prefix s b p :
  parse_target s = Return (b, p) → parse_prefix s = Return p.
Proof.
  unfold parse_target.
  destruct (getitem _ _); simpl; [|done].
  destruct (parse_prefix s); simpl; [|done]. by intros [= _ ->].
Qed.

Lemma init_run options l s meta prof (m : machine W) :
  init options l s meta prof m =
    match parse_target s with
    | Return target =>
        let keys :=
          map (fun k => target.2 +:+ slice_from (String.length l + 1) k +:+ "/")
              (split newline None (strip (find_output (world m) l))) in
        let m1 := Machine (aws_installed m) (world_step (world m) (find_sort l)) in
        match parse_meta options meta with
        | Return metas =>
            (Return {| local := l; s3path := s;
                       bucket := target.1; key := target.2;
                       localToKeys := keys;
                       metadir := metas.1; metafile := metas.2;
                       profile := prof |},
             m1, [find_sort l])
        | Raise e => (Raise e, m1, [find_sort l])
        end
    | Raise e => (Raise e, m, [])
    end.
Proof.
  unfold init, bind, lift, ret. destruct (parse_target s) as [target|e]; [|done].
  rewrite find_dirs_run. cbn [fst snd].
  by destruct (parse_meta options meta) as [metas|e].
Qed.

(** C4, the claim refuted: over a local path that [find] cannot enter
    (nothing on its standard output) the enumeration returns a list, of one
    key; it is the list that a directory without subdirectories gives. *)
Lemma find_dirs_missing_path :
  result (find_dirs "dest/" "/no/such/dir" "/no/such/dir"
            (Machine true Sample.denied)) = Return ["dest//"]
  ∧ result (find_dirs "dest/" "root" "root" (Machine true Sample.empty_store))
    = Return ["dest//"].
Proof. split; reflexivity. Qed.

(** C4, as the code has it. The enumeration never fails and never returns
    an empty list.  When [find] prints nothing (the local path is missing or
    is no directory) it returns the one key [prefix + "/"], and so it does
    for a directory without subdirectories, for which [find] prints the
    path alone. *)
Theorem find_dirs_never_fails key l (m : machine W) :
  (∃ keys, result (find_dirs key l l m) = Return keys ∧ keys ≠ [])
  ∧ (find_output (world m) l = "" →
     result (find_dirs key l l m) = Return [key +:+ "/"])
  ∧ (has_char newline l = false →
     find_output (world m) l = l +:+ String newline "" →
     result (find_dirs key l l m) = Return [key +:+ "/"]).
Proof.
  split; [|split].
  - destruct (find_dirs_keys key l l m) as (keys & ? & ? & _). eauto.
  - intros E. rewrite find_dirs_run, E. unfold result. cbn [fst snd].
    change (split newline None (strip "")) with [""]. cbn [map].
    by rewrite slice_from_past by (simpl; lia).
  - intros Hl E. rewrite find_dirs_run, E. unfold result. cbn [fst snd].
    rewrite strip_snoc_space by reflexivity.
    rewrite split_without by (by apply strip_without). cbn [map].
    rewrite slice_from_past; [done|].
    pose proof (strip_length l). lia.
Qed.

(** C6, as the code has it. Every key of the enumeration ends in a slash;
    a key that the program creates or updates is the root key, which is the
    prefix of the target as [parse_prefix] returns it, or ends in a slash;
    and the prefix of a target [b/p] is [p] unchanged, so that the root key
    ends in a slash only when the target does. *)
Theorem mutated_keys_end_in_slash :
  (∀ self_key self_local l (m : machine W),
     ∃ keys, result (find_dirs self_key self_local l m) = Return keys
             ∧ Forall (fun k => last_char k = Some "/"%char) keys)
  ∧ (∀ options (m : machine W) e k,
       e ∈ events (main options m) → mutated_key e = Some k →
       parse_prefix (opt_s3path options) = Return k
       ∨ last_char k = Some "/"%char)
  ∧ (∀ b p, has_char slash b = false →
            parse_prefix (b +:+ "/" +:+ p) = Return p
            ∧ (last_char p = Some "/"%char ↔
               last_char (b +:+ "/" +:+ p) = Some "/"%char ∧ p ≠ "")).
Proof.
  split; [|split].
  - intros self_key self_local l m.
    destruct (find_dirs_keys self_key self_local l m) as (keys & ? & _ & ?). eauto.
  - intros options m e k. unfold main, bind. rewrite init_run.
    destruct (parse_target (opt_s3path options)) as [[b p]|err] eqn:Et;
      [|unfold events; simpl; by intros ?%elem_of_nil].
    cbn [fst snd].
    destruct (parse_meta options (opt_metadata options)) as [[d f]|err];
      cbn [fst snd].
    + set (self := {| local := opt_localdir options |}).
      set (m1 := Machine _ _).
      pose proof (sync_mutated_keys self m1) as Hs.
      destruct (sync self m1) as [[r m2] ev]. unfold events in *. cbn [fst snd] in *.
      intros [He|He]%elem_of_cons Hk; [by subst e|].
      rewrite Forall_forall in Hs. destruct (Hs e He k Hk) as [->|Hin].
      * left. by apply parse_target_prefix in Et.
      * right. apply list_elem_of_lookup_1 in Hin as (i & Hin).
        rewrite lookup_drop in Hin. apply list_elem_of_lookup_2 in Hin.
        cbn [localToKeys self] in Hin.
        apply list_elem_of_In, in_map_iff in Hin as (x & <- & _).
        apply last_char_slash.
    + unfold events. cbn [fst snd].
      intros ->%list_elem_of_singleton Hk. discriminate Hk.
  - intros b p Hb. split; [by apply parse_prefix_cut|].
    destruct p as [|c p]; [split; [done|by intros [_ ?]]|].
    split.
    + intros Hp. split; [|done]. clear Hb.
      induction b as [|a b IH]; [done|].
      rewrite append_cons. cbn [last_char]. rewrite IH.
      by destruct b.
    + intros [Hp _]. clear Hb.
      induction b as [|a b IH]; [done|].
      rewrite append_cons in Hp. cbn [last_char] in Hp.
      apply IH. by destruct b.
Qed.

End Startup.

Lemma find_dirs_never_fails_witness :
  let m := Machine true Sample.empty_store in
  has_char newline "root" = false
  ∧ find_output (world m) "root" = "root" +:+ String newline ""
  ∧ result (find_dirs "dest/" "root" "root" m) = Return ["dest/" +:+ "/"].
Proof.
  split; [reflexivity|]. split; [reflexivity|].
  destruct (find_dirs_never_fails "dest/" "root" (Machine true Sample.empty_store))
    as (_ & _ & Hroot).
  apply Hroot; reflexivity.
Defined.

Lemma mutated_keys_end_in_slash_witness :
  let m := Machine true Sample.empty_store in
  let put := put_object "bkt" "dest/" (metadir Sample.dest) "default" in
  put ∈ events (main Sample.options m)
  ∧ mutated_key put = Some "dest/"
  ∧ (parse_prefix (opt_s3path Sample.options) = Return "dest/"
     ∨ last_char "dest/" = Some "/"%char).
Proof.
  assert (put_object "bkt" "dest/" (metadir Sample.dest) "default"
          ∈ events (main Sample.options (Machine true Sample.empty_store))) as Hin.
  { vm_compute. do 3 right. left. }
  split; [exact Hin|]. split; [reflexivity|].
  destruct (@mutated_keys_end_in_slash Fixed.fixed_world _) as (_ & Hmain & _).
  exact (Hmain Sample.options (Machine true Sample.empty_store) _ "dest/" Hin eq_refl).
Defined.

(** C6, the claim refuted: for the target [bucket/a/b], over an empty store,
    the one key the program creates is the root key [a/b], whose last
    character is not a slash. *)
Lemma root_key_without_slash :
  omap mutated_key (events (main Sample.options_open (Machine true Sample.empty_store)))
    = ["a/b"]
  ∧ last_char "a/b" = Some "b"%char.
Proof. split; reflexivity. Qed.

(** * Reconciling twice *)

Section Idempotence.
Context {W : Type} `{World W}.

Lemma verify_keys_silent_without_aws self keys meta (m : machine W) :
  aws_installed m = false → mutations (events (verify_keys self keys meta m)) = [].
Proof.
  intros Hi. destruct keys as [|k keys]; [done|].
  rewrite verify_keys_cons. unfold bind.
  by rewrite (verify_key_not_installed _ _ _ _ Hi).
Qed.

Variable self : SmartS3Sync.
Variable meta : text.
Variable keys : list string.
Hypothesis effect : takes_effect (bucket self) (profile self) meta keys.

(** After its turn a key of the list is found with metadata, and the keys
    of the list that were so before the turn still are. *)
Lemma verify_key_effect k (m : machine W) :
  aws_installed m = true →
  k ∈ keys →
  with_metadata (head_result (world (final (verify_key self k meta m)))
                   (bucket self) k (profile self))
  ∧ ∀ k', k' ∈ keys →
          with_metadata (head_result (world m) (bucket self) k' (profile self)) →
          with_metadata (head_result (world (final (verify_key self k meta m)))
                           (bucket self) k' (profile self)).
Proof.
  destruct effect as [Hlq Hsq Hpe Hce Hpk Hck].
  intros Hi Hk. rewrite (verify_key_installed _ _ _ _ Hi). cbn zeta.
  destruct (head_result (world m) (bucket self) k (profile self))
    as [[|kv md]| |c] eqn:E; unfold final; cbn [fst snd world].
  - split.
    + apply Hce; [done|]. by rewrite Hsq, Hlq.
    + intros k' Hk' Hw. apply Hck; [done..|]. by rewrite Hsq, Hlq.
  - split.
    + rewrite Hlq, E by done. by eexists.
    + intros k' Hk' Hw. by rewrite Hlq.
  - split.
    + by apply Hpe.
    + intros k' Hk' Hw. apply Hpk; [done..|]. by rewrite Hsq, Hlq.
  - split.
    + by apply Hpe.
    + intros k' Hk' Hw. apply Hpk; [done..|]. by rewrite Hsq, Hlq.
Qed.

Lemma verify_keys_effect ks (m : machine W) :
  aws_installed m = true →
  (∀ k, k ∈ ks → k ∈ keys) →
  (∀ k, k ∈ ks →
        with_metadata (head_result (world (final (verify_keys self ks meta m)))
                         (bucket self) k (profile self)))
  ∧ ∀ k', k' ∈ keys →
          with_metadata (head_result (world m) (bucket self) k' (profile self)) →
          with_metadata (head_result (world (final (verify_keys self ks meta m)))
                           (bucket self) k' (profile self)).
Proof.
  revert m. induction ks as [|k ks IH]; intros m Hi Hsub.
  - split; [by intros k ?%elem_of_nil|done].
  - rewrite verify_keys_cons. unfold bind.
    pose proof (verify_key_effect k m Hi (Hsub k ltac:(left))) as [Hk Hkeep].
    pose proof (verify_key_result self k meta m) as Hr. rewrite Hi in Hr.
    pose proof (verify_key_keeps_installed self k meta m) as Hi1. rewrite Hi in Hi1.
    destruct (verify_key self k meta m) as [[r1 m1] ev1].
    unfold result, final in *. cbn [fst snd] in *. subst r1.
    destruct (IH m1 Hi1) as [Hks Hkeep1]; [intros k' Hk'; apply Hsub; by right|].
    destruct (verify_keys self ks meta m1) as [[r2 m2] ev2].
    cbn [fst snd] in *. split.
    + intros k' [->|Hin]%elem_of_cons; [|by apply Hks].
      apply Hkeep1; [apply Hsub; left|done].
    + intros k' Hk' Hw. by apply Hkeep1, Hkeep.
Qed.

(** Over keys that are all found with metadata the loop only looks. *)
Lemma verify_keys_quiet ks (m : machine W) :
  aws_installed m = true →
  (∀ k, k ∈ ks → k ∈ keys) →
  (∀ k, k ∈ ks →
        with_metadata (head_result (world m) (bucket self) k (profile self))) →
  mutations (events (verify_keys self ks meta m)) = [].
Proof.
  destruct effect as [Hlq _ _ _ _ _].
  revert m. induction ks as [|k ks IH]; intros m Hi Hsub Hw; [done|].
  rewrite verify_keys_cons. unfold bind.
  rewrite (verify_key_installed _ _ _ _ Hi). cbn zeta.
  destruct (Hw k) as (md & -> & Hne); [left|].
  destruct md as [|kv md]; [done|].
  specialize (IH (Machine true (world_step (world m)
                    (head_object (bucket self) k (profile self)))) eq_refl).
  unfold events in *.
  destruct (verify_keys self ks meta _) as [[r2 m2] ev2]. cbn [fst snd] in *.
  cbn [app mutations List.filter is_mutation mutated_key].
  apply IH.
  - intros k' Hk'. apply Hsub. by right.
  - intros k' Hk'. cbn [world]. rewrite Hlq; [apply Hw; by right|].
    apply Hsub. by right.
Qed.

End Idempotence.

(** C7, as the code has it. Reconciling twice over a store in which the
    creates and updates of the reconciler take effect for the keys of the
    list ([takes_effect]): for every key list and every state of such a
    store, the second run of [verify_keys], started where the first one
    ended, issues no create and no update; and when [aws] can be started,
    every key of the list is found with non-empty metadata after the first
    run. *)
Theorem reconcile_twice {W} `{World W} self keys meta (m : machine W) :
  takes_effect (bucket self) (profile self) meta keys →
  let once := verify_keys self keys meta m in
  let twice := verify_keys self keys meta (final once) in
  mutations (events twice) = []
  ∧ (aws_installed m = true →
     ∀ k, k ∈ keys →
          with_metadata (head_result (world (final once))
                           (bucket self) k (profile self))).
Proof.
  intros Heff once twice. subst once twice.
  pose proof (verify_keys_keeps_installed self keys meta m) as Hi1.
  destruct (aws_installed m) eqn:Hi.
  - destruct (verify_keys_effect self meta keys Heff keys m Hi) as [Hks _]; [done|].
    split; [|done].
    by apply (verify_keys_quiet self meta keys Heff).
  - split; [|done]. by apply verify_keys_silent_without_aws.
Qed.

(** A bucket takes the creates and updates of the reconciler, for keys
    that are not empty, a bucket name without a slash and a metadata
    argument that the command line accepts and that is not empty. *)
Section BucketEffect.

Lemma copy_source_self b k :
  has_char slash b = false → copy_source_of (b +:+ "/" +:+ k) = Some (b, k).
Proof.
  intros Hb. unfold copy_source_of.
  change (b +:+ "/" +:+ k) with (b +:+ String slash k).
  by rewrite split_once.
Qed.

Lemma strings_of_set k v d md :
  strings_of d = Some md →
  ∃ a, strings_of (dict_set k (JStr v) d) = Some a ∧ a ≠ [].
Proof.
  revert md. induction d as [|[k' j] d IH]; intros md; simpl.
  - intros _. by eexists.
  - destruct j; try done.
    destruct (strings_of d) as [md'|] eqn:Ed; [|done]. intros _.
    destruct (String.eqb k' k); simpl.
    + rewrite Ed. by eexists.
    + destruct (IH md' eq_refl) as (a & -> & _). by eexists.
Qed.

Lemma stored_not_empty a : a ≠ [] → stored a ≠ [].
Proof. by destruct a. Qed.

Lemma head_after_insert (w : bucket_world) b k k' p a :
  k' ≠ "" →
  head_result (with_objects w (<[(b, k) := a]> (objects w))) b k' p
  = if decide (k = k') then Found a else head_result w b k' p.
Proof.
  intros Hk'. simpl. apply String.eqb_neq in Hk' as ->.
  case_decide as Hd.
  - subst k'. by rewrite lookup_insert_eq.
  - rewrite lookup_insert_ne; [done|]. congruence.
Qed.

Lemma bucket_takes_effect b p meta attrs keys :
  has_char slash b = false →
  metadata_arg meta = Some attrs →
  attrs ≠ [] →
  Forall (fun k => k ≠ "") keys →
  takes_effect (W := bucket_world) b p meta keys.
Proof.
  intros Hb Hmeta Hne Hkeys. rewrite Forall_forall in Hkeys.
  assert (∀ (w : bucket_world) k,
            k ∈ keys →
            world_step w (put_object b k meta p)
            = with_objects w (<[(b, k) := stored attrs]> (objects w))) as Hput.
  { intros w k Hk. simpl. rewrite Hmeta.
    by apply Hkeys, String.eqb_neq in Hk as ->. }
  assert (∀ (w : bucket_world) k,
            k ∈ keys →
            world_step w (copy_object b k (b +:+ "/" +:+ k) meta "REPLACE" p)
            = match objects w !! (b, k) with
              | Some _ => with_objects w (<[(b, k) := stored attrs]> (objects w))
              | None => w
              end) as Hcopy.
  { intros w k Hk. simpl. rewrite (copy_source_self _ _ Hb), Hmeta.
    apply Hkeys, String.eqb_neq in Hk as ->. by destruct (objects w !! (b, k)). }
  split.
  - done.
  - done.
  - intros w k Hk. rewrite (Hput _ _ Hk), head_after_insert by by apply Hkeys.
    rewrite decide_True by done. exists (stored attrs).
    split; [done|by apply stored_not_empty].
  - intros w k Hk Hfound. rewrite (Hcopy _ _ Hk).
    assert (objects w !! (b, k) = Some []) as ->.
    { simpl in Hfound. apply Hkeys, String.eqb_neq in Hk. rewrite Hk in Hfound.
      destruct (objects w !! (b, k)); by simplify_eq. }
    rewrite head_after_insert by by apply Hkeys.
    rewrite decide_True by done. exists (stored attrs).
    split; [done|by apply stored_not_empty].
  - intros w k k' Hk Hk' Hw. rewrite (Hput _ _ Hk), head_after_insert by by apply Hkeys.
    case_decide; [|done]. exists (stored attrs).
    split; [done|by apply stored_not_empty].
  - intros w k k' Hk Hk' Hw. rewrite (Hcopy _ _ Hk).
    destruct (objects w !! (b, k)); [|done].
    rewrite head_after_insert by by apply Hkeys.
    case_decide; [|done]. exists (stored attrs).
    split; [done|by apply stored_not_empty].
Qed.

End BucketEffect.

Lemma reconcile_twice_witness :
  let m := Machine true Sample.bucket_state in
  let keys := ["dest/"; "dest/a/"; "dest/b/"; "dest/a/"] in
  takes_effect (W := bucket_world) (bucket Sample.dest) (profile Sample.dest)
    (metadir Sample.dest) keys
  ∧ mutations (events (verify_keys Sample.dest keys (metadir Sample.dest)
                         (final (verify_keys Sample.dest keys
                                   (metadir Sample.dest) m)))) = [].
Proof.
  assert (takes_effect (W := bucket_world) (bucket Sample.dest)
            (profile Sample.dest) (metadir Sample.dest)
            ["dest/"; "dest/a/"; "dest/b/"; "dest/a/"]) as Heff.
  { apply (bucket_takes_effect _ _ _
             [("uid", "6812"); ("gid", "6812"); ("mode", "509")]);
      [reflexivity | reflexivity | discriminate |].
    repeat constructor; discriminate. }
  split; [exact Heff|].
  apply (reconcile_twice Sample.dest ["dest/"; "dest/a/"; "dest/b/"; "dest/a/"]
           (metadir Sample.dest) (Machine true Sample.bucket_state) Heff).
Defined.

(** C7, the claim refuted. For the target [bkt/] the root key is the empty
    key, which the command line refuses: over a bucket without objects the
    first reconciliation of the root key issues a [put-object] that stores
    nothing, and the second reconciliation, started where the first ended,
    issues the same [put-object] again. *)
Lemma reconcile_empty_key :
  let m := Machine true Sample.empty_bucket in
  let self := Sample.bucket_root in
  result (init Sample.options_root "root" "bkt/" (opt_metadata Sample.options_root)
            "default" m) = Return self
  ∧ key self = ""
  ∧ mutations (events (verify_keys self [key self] (metadir self)
                         (final (verify_keys self [key self] (metadir self) m))))
    = [put_object "bkt" "" (metadir self) "default"].
Proof. repeat split. Qed.

(** * Further results *)

Import Observe.

(** ** Listings *)

Section Listings.

Lemma has_char_app c a b : has_char c (a +:+ b) = has_char c a || has_char c b.
Proof.
  induction a as [|x a IH]; [done|].
  rewrite append_cons. simpl. rewrite IH. by rewrite orb_assoc.
Qed.

Lemma append_empty_r (a : string) : a +:+ "" = a.
Proof. induction a as [|x a IH]; [done|]. rewrite append_cons. by f_equal. Qed.

(** A text that begins with a character that is no space loses nothing on
    the left. *)
Lemma lstrip_fixed_head s : s ≠ "" → lstrip s = s → ∃ c s', s = String c s' ∧ isspace c = false.
Proof.
  destruct s as [|c s']; [done|]. intros _. simpl.
  destruct (isspace c) eqn:E; [|by eauto].
  intros Hs. pose proof (lstrip_length s') as Hl. rewrite Hs in Hl. simpl in Hl. lia.
Qed.

Lemma lstrip_app s q : s ≠ "" → lstrip s = s → lstrip (s +:+ q) = s +:+ q.
Proof.
  intros Hne Hs. destruct (lstrip_fixed_head s Hne Hs) as (c & s' & -> & Hc).
  rewrite append_cons. simpl. by rewrite Hc.
Qed.

Lemma rstrip_app p r : r ≠ "" → rstrip r = r → rstrip (p +:+ r) = p +:+ r.
Proof.
  intros Hne Hr. induction p as [|a p IH]; [done|].
  rewrite append_cons. simpl. rewrite IH.
  destruct (p +:+ r) eqn:E; [|done].
  destruct p; [|done]. by destruct r.
Qed.

Lemma split_line sep l rest :
  has_char sep l = false →
  split sep None (l +:+ String sep rest) = l :: split sep None rest.
Proof.
  induction l as [|c l IH]; simpl.
  - intros _. by rewrite Ascii.eqb_refl.
  - intros [Hc Hl]%orb_false_iff. rewrite Hc, (IH Hl). done.
Qed.

Lemma split_join_lines lines :
  lines ≠ [] →
  Forall (fun l => has_char newline l = false) lines →
  split newline None (join_lines lines) = lines.
Proof.
  induction lines as [|l lines IH]; [done|]. intros _ [Hl Hls]%Forall_cons.
  destruct lines as [|l' lines].
  - by apply split_without.
  - change (join_lines (l :: l' :: lines))
      with (l +:+ String newline (join_lines (l' :: lines))).
    rewrite (split_line _ _ _ Hl), IH; done.
Qed.

Lemma unlines_join lines :
  lines ≠ [] → unlines lines = join_lines lines +:+ String newline "".
Proof.
  induction lines as [|l lines IH]; [done|]. intros _.
  destruct lines as [|l' lines]; [done|].
  change (unlines (l :: l' :: lines))
    with (l +:+ String newline (unlines (l' :: lines))).
  change (join_lines (l :: l' :: lines))
    with (l +:+ String newline (join_lines (l' :: lines))).
  rewrite IH by done.
  rewrite app_assoc_str. rewrite append_cons. done.
Qed.

Lemma rstrip_join_lines lines :
  Forall (fun l => l ≠ "" ∧ rstrip l = l) lines →
  rstrip (join_lines lines) = join_lines lines
  ∧ (lines ≠ [] → join_lines lines ≠ "").
Proof.
  induction lines as [|l lines IH]; [done|]. intros [[Hne Hl] Hls]%Forall_cons.
  destruct lines as [|l' lines]; [done|].
  destruct (IH Hls) as [Hr Hn].
  change (join_lines (l :: l' :: lines))
    with (l +:+ String newline (join_lines (l' :: lines))).
  split.
  - change (l +:+ String newline (join_lines (l' :: lines)))
      with (l +:+ String newline "" +:+ join_lines (l' :: lines)).
    rewrite <- app_assoc_str. apply rstrip_app; [by apply Hn | done].
  - intros _. by destruct l.
Qed.

(** The lines that [find_dirs] reads back from a listing are the lines
    printed, when the first begins and all end with a character that is no
    space and none holds a newline. *)
Lemma split_strip_unlines first lines :
  first ≠ "" → lstrip first = first →
  Forall (fun l => l ≠ "" ∧ rstrip l = l ∧ has_char newline l = false)
         (first :: lines) →
  split newline None (strip (unlines (first :: lines))) = first :: lines.
Proof.
  intros Hne Hl Hall.
  rewrite unlines_join by done. rewrite strip_snoc_space by reflexivity.
  assert (rstrip (join_lines (first :: lines)) = join_lines (first :: lines)) as Hr.
  { apply rstrip_join_lines. eapply Forall_impl; [exact Hall|].
    by intros l (? & ? & ?). }
  assert (lstrip (join_lines (first :: lines)) = join_lines (first :: lines)) as Hls.
  { destruct lines as [|l' lines]; [done|].
    change (join_lines (first :: l' :: lines))
      with (first +:+ String newline (join_lines (l' :: lines))).
    by apply lstrip_app. }
  unfold strip. rewrite Hls, Hr.
  apply split_join_lines; [done|].
  eapply Forall_impl; [exact Hall|]. by intros l (? & ? & ?).
Qed.

Lemma slice_from_app a c r : slice_from (String.length a + 1) (a +:+ String c r) = r.
Proof. induction a as [|x a IH]; [done|]. rewrite append_cons. simpl. exact IH. Qed.

Lemma listed_keys key l (subs : list (ascii * string)) :
  map (fun k => key +:+ slice_from (String.length l + 1) k +:+ "/")
      (l :: map (fun cr => l +:+ String cr.1 cr.2) subs)
  = (key +:+ "/") :: map (fun cr => key +:+ cr.2 +:+ "/") subs.
Proof.
  cbn [map]. f_equal.
  - by rewrite slice_from_past by lia.
  - rewrite map_map. apply map_ext. intros [c r]. cbn [fst snd].
    by rewrite slice_from_app.
Qed.

Lemma listed_lines_tidy l (subs : list (ascii * string)) :
  l ≠ "" → rstrip l = l → has_char newline l = false →
  Forall (fun cr => has_char newline (String cr.1 cr.2) = false
                    ∧ rstrip (String cr.1 cr.2) = String cr.1 cr.2) subs →
  Forall (fun k => k ≠ "" ∧ rstrip k = k ∧ has_char newline k = false)
         (l :: map (fun cr => l +:+ String cr.1 cr.2) subs).
Proof.
  intros Hne Hr Hn Hsubs. constructor; [done|].
  apply Forall_map. eapply Forall_impl; [exact Hsubs|].
  intros [c r] [Hcn Hcr]. cbn [fst snd] in *. split; [by destruct l|]. split.
  - by apply rstrip_app.
  - by rewrite has_char_app, Hn, Hcn.
Qed.

(** X1. [find_dirs] over a listing.  When [find] prints the local path and
    then paths that continue it by one character and a remainder, the keys
    are the prefix with a slash, then, for each further path and in order,
    the prefix, the remainder and a slash: the character that follows the
    local path is dropped whatever it is.  It is the separator when the
    local path was given without a trailing slash, and the first character
    of the subdirectory's name when it was given with one. *)
Theorem find_dirs_listing {W} `{World W} key l (subs : list (ascii * string))
    (m : machine W) :
  l ≠ "" → lstrip l = l → rstrip l = l → has_char newline l = false →
  Forall (fun cr => has_char newline (String cr.1 cr.2) = false
                    ∧ rstrip (String cr.1 cr.2) = String cr.1 cr.2) subs →
  find_output (world m) l = unlines (l :: map (fun cr => l +:+ String cr.1 cr.2) subs) →
  result (find_dirs key l l m)
  = Return ((key +:+ "/") :: map (fun cr => key +:+ cr.2 +:+ "/") subs).
Proof.
  intros Hne Hl Hr Hn Hsubs Hout.
  rewrite find_dirs_run, Hout. unfold result. cbn [fst snd].
  rewrite split_strip_unlines; [|done|done|by apply listed_lines_tidy].
  by rewrite listed_keys.
Qed.

Lemma find_dirs_listing_witness :
  let m := Machine true Sample.bucket_state in
  let subs := [("/"%char, "a"); ("/"%char, "b")] in
  find_output (world m) "root"
  = unlines ("root" :: map (fun cr => "root" +:+ String cr.1 cr.2) subs)
  ∧ result (find_dirs "dest/" "root" "root" m)
    = Return ["dest/" +:+ "/"; "dest/" +:+ "a" +:+ "/"; "dest/" +:+ "b" +:+ "/"].
Proof.
  split; [reflexivity|].
  apply (find_dirs_listing "dest/" "root" [("/"%char, "a"); ("/"%char, "b")]
           (Machine true Sample.bucket_state));
    try reflexivity; try discriminate.
  repeat constructor.
Defined.

End Listings.

(** ** The target and the attributes *)

Section Inputs.

Lemma has_char_cut sep s :
  has_char sep s = true →
  ∃ b p, s = b +:+ String sep p ∧ has_char sep b = false.
Proof.
  induction s as [|c s IH]; [done|]. simpl.
  destruct (Ascii.eqb_spec c sep) as [->|Hne]; simpl.
  - intros _. by exists "", s.
  - intros Hs. destruct (IH Hs) as (b & p & -> & Hb).
    exists (String c b), p. split; [done|]. simpl.
    rewrite Hb. by apply Ascii.eqb_neq in Hne as ->.
Qed.

(** X2. The bucket and the key put back together.  A target that holds a slash
    is its bucket, a slash and its key; for a target without a slash the
    bucket and the key are both the whole target. *)
Theorem parse_target_rebuild s b p :
  parse_target s = Return (b, p) →
  (has_char slash s = true → s = b +:+ "/" +:+ p)
  ∧ (has_char slash s = false → b = s ∧ p = s).
Proof.
  intros Hrun. split.
  - intros Hs. destruct (has_char_cut _ _ Hs) as (b' & p' & -> & Hb').
    change (b' +:+ String slash p') with (b' +:+ "/" +:+ p') in *.
    rewrite (parse_target_cut _ _ Hb') in Hrun. by injection Hrun as <- <-.
  - intros Hs. unfold parse_target, parse_prefix in Hrun.
    rewrite (split_without _ _ _ Hs) in Hrun. by injection Hrun as <- <-.
Qed.

Lemma parse_target_rebuild_witness :
  parse_target "bkt/dest/a/" = Return ("bkt", "dest/a/")
  ∧ has_char slash "bkt/dest/a/" = true
  ∧ "bkt/dest/a/" = "bkt" +:+ "/" +:+ "dest/a/".
Proof.
  split; [reflexivity|]. split; [reflexivity|].
  destruct (parse_target_rebuild "bkt/dest/a/" "bkt" "dest/a/" eq_refl) as [Hcut _].
  exact (Hcut eq_refl).
Defined.

(** X3. The outcomes of [parse_meta], by what [--metadata] spells: a JSON
    object gives two attribute strings, which always differ; any other JSON
    value makes the assignment of ["mode"] raise [TypeError]; a text that
    is no JSON makes [json.loads] raise. *)
Theorem parse_meta_outcomes options meta :
  match opt_metadata options with
  | Json (JObj base) =>
      ∃ d f, parse_meta options meta = Return (d, f) ∧ d ≠ f
  | Json _ => parse_meta options meta = Raise TypeError
  | NotJson _ => parse_meta options meta = Raise JSONDecodeError
  end.
Proof.
  unfold parse_meta. destruct (opt_metadata options) as [[]|]; try done.
  simpl. eexists _, _. split; [done|].
  intros [= Heq].
  pose proof (dict_get_set "mode" (JStr "509") d) as H1.
  rewrite Heq, dict_get_set in H1. discriminate H1.
Qed.

End Inputs.

(** ** More on the reconciler and on the script *)

Section Reconciler.
Context {W : Type} `{World W}.

Lemma sync_single self (m : machine W) :
  sync self m
  = bind (verify_keys self (key self :: drop 1 (localToKeys self)) (metadir self))
         (fun _ => spawn_aws (aws_sync (local self) ("s3://" +:+ s3path self)
                                       (metafile self) (profile self)))
         m.
Proof.
  unfold sync. rewrite <- bind_assoc. unfold bind at 1 3.
  change (key self :: drop 1 (localToKeys self))
    with ([key self] ++ drop 1 (localToKeys self)).
  by rewrite verify_keys_app.
Qed.

(** X4. Reconciling a list made of two parts is reconciling the first part and
    then, unless that raised, the second one from where the first left; and
    the two reconciliations of [sync] are one reconciliation of the root
    key followed by the enumerated keys but the first. *)
Theorem reconcile_composes self (m : machine W) :
  (∀ keys1 keys2 meta,
     verify_keys self (keys1 ++ keys2) meta m
     = bind (verify_keys self keys1 meta) (fun _ => verify_keys self keys2 meta) m)
  ∧ sync self m
    = bind (verify_keys self (key self :: drop 1 (localToKeys self)) (metadir self))
           (fun _ => spawn_aws (aws_sync (local self) ("s3://" +:+ s3path self)
                                         (metafile self) (profile self)))
           m.
Proof. split; [intros; apply verify_keys_app | apply sync_single]. Qed.

Lemma verify_key_lookups self k meta (m : machine W) :
  aws_installed m = true →
  lookups (events (verify_key self k meta m))
  = [head_object (bucket self) k (profile self)]
  ∧ length (mutations (events (verify_key self k meta m))) ≤ 1.
Proof.
  intros Hi. rewrite (verify_key_installed _ _ _ _ Hi). simpl.
  destruct (head_result _ _ _ _) as [[|? ?]| |]; simpl; split; try done; lia.
Qed.

(** X5. With [aws] at hand, [verify_keys] looks every key of its list up
    exactly once, in list order, whatever it finds, and returns. *)
Theorem verify_keys_lookups self keys meta (m : machine W) :
  aws_installed m = true →
  lookups (events (verify_keys self keys meta m))
  = map (fun k => head_object (bucket self) k (profile self)) keys
  ∧ result (verify_keys self keys meta m) = Return tt.
Proof.
  intros Hi. split; [|by apply verify_keys_returns].
  revert m Hi. induction keys as [|k keys IH]; intros m Hi; [done|].
  rewrite verify_keys_cons. unfold bind.
  pose proof (verify_key_lookups self k meta m Hi) as [Hk _].
  pose proof (verify_key_result self k meta m) as Hr. rewrite Hi in Hr.
  pose proof (verify_key_keeps_installed self k meta m) as Hi1. rewrite Hi in Hi1.
  destruct (verify_key self k meta m) as [[r1 m1] ev1].
  unfold result, final, events in *. cbn [fst snd] in *. subst r1.
  specialize (IH m1 Hi1).
  destruct (verify_keys self keys meta m1) as [[r2 m2] ev2]. cbn [fst snd] in *.
  unfold lookups in *. rewrite List.filter_app, Hk, IH. done.
Qed.

(** X6. Without [aws], [verify_keys] over a list that is not empty stops at
    its first key: the lookup cannot start, the handler announces the
    creation on standard error, the creation cannot start either and
    [FileNotFoundError] leaves the loop; no later key is touched. *)
Theorem verify_keys_without_aws self k keys meta (m : machine W) :
  aws_installed m = false →
  result (verify_keys self (k :: keys) meta m) = Raise FileNotFoundError
  ∧ events (verify_keys self (k :: keys) meta m)
    = [stderr_write ("creating key '" +:+ k +:+ "'" +:+ String newline "")].
Proof.
  intros Hi. rewrite verify_keys_cons. unfold bind.
  by rewrite (verify_key_not_installed _ _ _ _ Hi).
Qed.

(** X7. What [verify_keys] may do: it never starts a bulk transfer; a key it
    creates or updates is a key of its list, and the attributes are those
    it was passed; it issues at most one create or update per key of the
    list. *)
Theorem verify_keys_footprint self keys meta (m : machine W) :
  Forall (fun e => is_bulk e = false
                   ∧ ∀ k, mutated_key e = Some k → k ∈ keys ∧ attached e = Some meta)
         (events (verify_keys self keys meta m))
  ∧ length (mutations (events (verify_keys self keys meta m))) ≤ length keys.
Proof.
  split; [apply verify_keys_events|].
  revert m. induction keys as [|k keys IH]; intros m; [done|].
  rewrite verify_keys_cons. unfold bind.
  destruct (aws_installed m) eqn:Hi.
  - pose proof (verify_key_lookups self k meta m Hi) as [_ Hk].
    destruct (verify_key self k meta m) as [[[[]|e] m1] ev1];
      unfold events in *; cbn [fst snd] in *.
    + specialize (IH m1).
      destruct (verify_keys self keys meta m1) as [[r2 m2] ev2]. cbn [fst snd] in *.
      unfold mutations in *. rewrite List.filter_app, length_app. simpl. lia.
    + simpl. lia.
  - rewrite (verify_key_not_installed _ _ _ _ Hi). simpl. lia.
Qed.

(** X8. [__main__] with a JSON object for [--metadata] and [aws] at hand,
    once the output of [find] has been decoded, returns normally whatever
    the store answers to its commands: its log opens with the enumeration
    and closes with the one bulk transfer, from the local directory to
    [s3://] and the target, with the file attributes. *)
Theorem main_returns options base (m : machine W) :
  opt_metadata options = Json (JObj base) →
  aws_installed m = true →
  result (main options m) = Return tt
  ∧ ∃ middle,
      events (main options m)
      = find_sort (opt_localdir options) :: middle
        ++ [aws_sync (opt_localdir options) ("s3://" +:+ opt_s3path options)
                     (Json (JObj (dict_set "mode" (JStr "33204") base)))
                     (opt_profile options)]
      ∧ Forall (fun e => is_bulk e = false) middle.
Proof.
  intros Hbase Hi. unfold main, bind. rewrite init_run.
  destruct (parse_target_total (opt_s3path options)) as (b & p & -> & _).
  rewrite (parse_meta_object _ _ _ Hbase). cbn [fst snd].
  set (self := {| local := opt_localdir options |}).
  set (m1 := Machine _ _).
  assert (aws_installed m1 = true) as Hi1 by done.
  destruct (sync_run self m1) as (Hev & _ & Hshape & _).
  pose proof (verify_keys_returns self [key self] (metadir self) m1 Hi1) as Hr1.
  pose proof (verify_keys_keeps_installed self [key self] (metadir self) m1) as Hk1.
  rewrite Hi1 in Hk1.
  pose proof (verify_keys_returns self (drop 1 (localToKeys self)) (metadir self)
                _ Hk1) as Hr2.
  rewrite Hr1, Hr2 in Hev.
  assert (result (sync self m1) = Return tt) as Hres.
  { rewrite sync_single. unfold bind.
    pose proof (verify_keys_returns self (key self :: drop 1 (localToKeys self))
                  (metadir self) m1 Hi1) as Hr.
    pose proof (verify_keys_keeps_installed self
                  (key self :: drop 1 (localToKeys self)) (metadir self) m1) as Hk.
    rewrite Hi1 in Hk.
    destruct (verify_keys self (key self :: drop 1 (localToKeys self))
                (metadir self) m1) as [[r m2] ev].
    unfold result, final in *. cbn [fst snd] in *. subst r.
    unfold spawn_aws. by rewrite Hk. }
  destruct (sync self m1) as [[r m2] ev].
  unfold result, events in *. cbn [fst snd] in *. subst r. split; [done|].
  eexists. split.
  - rewrite Hev. cbn [app]. f_equal. rewrite app_assoc. reflexivity.
  - eapply Forall_impl; [exact Hshape|]. by intros e [? _].
Qed.

(** X9. [__main__] with a [--metadata] that is no JSON object stops in
    [__init__], at [parse_meta]: the enumeration has run, no [aws] command
    has, and the exception is [TypeError] or that of [json.loads]. *)
Theorem main_rejects_metadata options (m : machine W) :
  (∀ base, opt_metadata options ≠ Json (JObj base)) →
  events (main options m) = [find_sort (opt_localdir options)]
  ∧ (result (main options m) = Raise TypeError
     ∨ result (main options m) = Raise JSONDecodeError).
Proof.
  intros Hbad. unfold main, bind. rewrite init_run.
  destruct (parse_target_total (opt_s3path options)) as (b & p & -> & _).
  pose proof (parse_meta_outcomes options (opt_metadata options)) as Hm.
  destruct (opt_metadata options) as [[]|] eqn:E;
    try (rewrite Hm; unfold result, events; cbn [fst snd]; by auto).
  by destruct (Hbad d).
Qed.

(** X10. [__main__] without [aws]: after the enumeration the first lookup cannot
    start; the script announces the creation of the root key on standard
    error and ends with [FileNotFoundError], no [aws] command having run. *)
Theorem main_without_aws options base (m : machine W) :
  opt_metadata options = Json (JObj base) →
  aws_installed m = false →
  ∃ p, parse_prefix (opt_s3path options) = Return p
       ∧ result (main options m) = Raise FileNotFoundError
       ∧ events (main options m)
         = [find_sort (opt_localdir options);
            stderr_write ("creating key '" +:+ p +:+ "'" +:+ String newline "")].
Proof.
  intros Hbase Hi. unfold main, bind. rewrite init_run.
  destruct (parse_target_total (opt_s3path options)) as (b & p & Ht & _).
  rewrite Ht, (parse_meta_object _ _ _ Hbase). cbn [fst snd].
  exists p. split; [by apply parse_target_prefix in Ht|].
  set (self := {| local := opt_localdir options |}).
  set (m1 := Machine _ _).
  assert (aws_installed m1 = false) as Hi1 by done.
  unfold sync, bind. cbn [verify_keys]. unfold bind.
  by rewrite (verify_key_not_installed _ _ _ _ Hi1).
Qed.

End Reconciler.

Lemma verify_keys_lookups_witness :
  let m := Machine true Sample.bucket_state in
  aws_installed m = true
  ∧ lookups (events (verify_keys Sample.dest ["dest/a/"; "dest/b/"]
                       (metadir Sample.dest) m))
    = [head_object "bkt" "dest/a/" "default"; head_object "bkt" "dest/b/" "default"].
Proof.
  split; [reflexivity|].
  apply (verify_keys_lookups Sample.dest ["dest/a/"; "dest/b/"]
           (metadir Sample.dest) (Machine true Sample.bucket_state) eq_refl).
Defined.

Lemma verify_keys_without_aws_witness :
  let m := Machine false Sample.bucket_state in
  aws_installed m = false
  ∧ result (verify_keys Sample.dest ["dest/a/"; "dest/b/"] (metadir Sample.dest) m)
    = Raise FileNotFoundError.
Proof.
  split; [reflexivity|].
  apply (verify_keys_without_aws Sample.dest "dest/a/" ["dest/b/"]
           (metadir Sample.dest) (Machine false Sample.bucket_state) eq_refl).
Defined.

Lemma main_returns_witness :
  let m := Machine true Sample.bucket_state in
  opt_metadata Sample.options = Json (JObj Sample.default_base)
  ∧ aws_installed m = true
  ∧ result (main Sample.options m) = Return tt.
Proof.
  split; [reflexivity|]. split; [reflexivity|].
  apply (main_returns Sample.options Sample.default_base
           (Machine true Sample.bucket_state) eq_refl eq_refl).
Defined.

Lemma main_rejects_metadata_witness :
  let options := {| opt_localdir := "root"; opt_s3path := "bkt/dest/";
                    opt_metadata := Json (JArr []); opt_profile := "default" |} in
  let m := Machine true Sample.bucket_state in
  (∀ base, opt_metadata options ≠ Json (JObj base))
  ∧ events (main options m) = [find_sort "root"].
Proof.
  split; [discriminate|].
  apply (main_rejects_metadata
           {| opt_localdir := "root"; opt_s3path := "bkt/dest/";
              opt_metadata := Json (JArr []); opt_profile := "default" |}
           (Machine true Sample.bucket_state)).
  discriminate.
Defined.

Lemma main_without_aws_witness :
  let m := Machine false Sample.bucket_state in
  opt_metadata Sample.options = Json (JObj Sample.default_base)
  ∧ aws_installed m = false
  ∧ ∃ p, parse_prefix (opt_s3path Sample.options) = Return p
         ∧ result (main Sample.options m) = Raise FileNotFoundError.
Proof.
  split; [reflexivity|]. split; [reflexivity|].
  destruct (main_without_aws Sample.options Sample.default_base
              (Machine false Sample.bucket_state) eq_refl eq_refl)
    as (p & Hp & Hr & _).
  by exists p.
Defined.

(** ** The reconciler over a bucket *)

Section Bucket.

Lemma verify_key_frame self k meta (m : machine bucket_world) x :
  x ≠ (bucket self, k) ∨ (∃ md, objects (world m) !! x = Some md ∧ md ≠ []) →
  objects (world (final (verify_key self k meta m))) !! x = objects (world m) !! x.
Proof.
  intros Hx. destruct (aws_installed m) eqn:Hi.
  - rewrite (verify_key_installed _ _ _ _ Hi). cbn zeta.
    destruct (String.eqb_spec k "") as [->|Hk]; [done|].
    apply String.eqb_neq in Hk.
    assert (objects (world m) !! (bucket self, k) = None
            ∨ objects (world m) !! (bucket self, k) = Some [] →
            x ≠ (bucket self, k)) as Hne.
    { intros Hl ->. destruct Hx as [?|(md & Hmd & ?)]; [done|].
      destruct Hl as [Hl|Hl]; rewrite Hl in Hmd; by simplify_eq. }
    simpl. rewrite Hk.
    destruct (objects (world m) !! (bucket self, k)) as [[|kv md]|] eqn:E;
      simpl; rewrite ?Hk.
    + destruct (copy_source_of _) as [from|]; [|done].
      destruct (objects (world m) !! from); [|done].
      destruct (metadata_arg meta); [|done]. simpl.
      apply lookup_insert_ne. intros ?. by apply Hne; [right|].
    + done.
    + destruct (metadata_arg meta); [|done]. simpl.
      apply lookup_insert_ne. intros ?. by apply Hne; [left|].
  - by rewrite (verify_key_not_installed _ _ _ _ Hi).
Qed.

Lemma verify_keys_frame_run self keys meta (m : machine bucket_world) b k :
  b ≠ bucket self ∨ k ∉ keys
  ∨ (∃ md, objects (world m) !! (b, k) = Some md ∧ md ≠ []) →
  objects (world (final (verify_keys self keys meta m))) !! (b, k)
  = objects (world m) !! (b, k).
Proof.
  revert m. induction keys as [|k0 keys IH]; intros m Hx; [done|].
  rewrite verify_keys_cons. unfold bind.
  assert (objects (world (final (verify_key self k0 meta m))) !! (b, k)
          = objects (world m) !! (b, k)) as Hstep.
  { apply verify_key_frame. destruct Hx as [?|[Hk|?]]; [left; congruence| |by right].
    left. intros [= -> ->]. apply Hk. left. }
  destruct (verify_key self k0 meta m) as [[[[]|e] m1] ev1];
    unfold final in *; cbn [fst snd] in *; [|done].
  specialize (IH m1).
  destruct (verify_keys self keys meta m1) as [[r2 m2] ev2]. cbn [fst snd] in *.
  rewrite IH; [done|]. rewrite Hstep.
  destruct Hx as [?|[Hk|?]]; [by left| |by right; right].
  right; left. intros ?. apply Hk. by right.
Qed.


Lemma verify_keys_absent self keys meta (m : machine bucket_world) :
  aws_installed m = true →
  NoDup keys →
  (∀ k, k ∈ keys → objects (world m) !! (bucket self, k) = None) →
  events (verify_keys self keys meta m)
  = flat_map (fun k =>
                [head_object (bucket self) k (profile self);
                 stderr_write ("creating key '" +:+ k +:+ "'" +:+ String newline "");
                 put_object (bucket self) k meta (profile self)])
             keys.
Proof.
  revert m. induction keys as [|k keys IH]; intros m Hi Hnd Habs; [done|].
  apply NoDup_cons in Hnd as [Hk Hnd].
  rewrite verify_keys_cons. unfold bind.
  pose proof (verify_key_keeps_installed self k meta m) as Hi1. rewrite Hi in Hi1.
  assert (∀ k', k' ∈ keys →
            objects (world (final (verify_key self k meta m))) !! (bucket self, k')
            = None) as Habs1.
  { intros k' Hk'. rewrite verify_key_frame; [apply Habs; by right|].
    left. intros [= ->]. done. }
  assert (head_result (world m) (bucket self) k (profile self) = NotFound
          ∨ head_result (world m) (bucket self) k (profile self)
            = OtherError RequestRefused) as Hans.
  { simpl. rewrite (Habs k) by left. destruct (String.eqb k ""); auto. }
  revert Hi1 Habs1. rewrite (verify_key_installed _ _ _ _ Hi). cbn zeta.
  destruct Hans as [-> | ->]; unfold final; cbn [fst snd]; intros Hi1 Habs1;
    specialize (IH _ Hi1 Hnd Habs1); unfold events in IH;
    destruct (verify_keys self keys meta _) as [[r2 m2] ev2]; cbn [fst snd] in *;
    by rewrite IH.
Qed.

Lemma mutations_of_creations b prof meta keys :
  mutations
    (flat_map (fun k =>
                 [head_object b k prof;
                  stderr_write ("creating key '" +:+ k +:+ "'" +:+ String newline "");
                  put_object b k meta prof])
              keys)
  = map (fun k => put_object b k meta prof) keys.
Proof. induction keys as [|k keys IH]; [done|]. simpl. by rewrite <- IH. Qed.

(** X12. Over a bucket that holds none of the keys of a list without repeats,
    [verify_keys] looks each key up, announces its creation and creates it
    with the metadata passed, key after key in list order, and does nothing
    else. *)
Theorem verify_keys_creates_absent self keys meta (m : machine bucket_world) :
  aws_installed m = true →
  NoDup keys →
  (∀ k, k ∈ keys → objects (world m) !! (bucket self, k) = None) →
  events (verify_keys self keys meta m)
  = flat_map (fun k =>
                [head_object (bucket self) k (profile self);
                 stderr_write ("creating key '" +:+ k +:+ "'" +:+ String newline "");
                 put_object (bucket self) k meta (profile self)])
             keys
  ∧ mutations (events (verify_keys self keys meta m))
    = map (fun k => put_object (bucket self) k meta (profile self)) keys.
Proof.
  intros Hi Hnd Habs. rewrite (verify_keys_absent _ _ _ _ Hi Hnd Habs).
  split; [done|]. apply mutations_of_creations.
Qed.

Lemma verify_key_writes self meta attrs k (m : machine bucket_world) :
  aws_installed m = true →
  has_char slash (bucket self) = false →
  metadata_arg meta = Some attrs →
  k ≠ "" →
  objects (world m) !! (bucket self, k) = None
  ∨ objects (world m) !! (bucket self, k) = Some [] →
  objects (world (final (verify_key self k meta m))) !! (bucket self, k)
  = Some (stored attrs).
Proof.
  intros Hi Hb Hmeta Hk Hl. rewrite (verify_key_installed _ _ _ _ Hi). cbn zeta.
  apply String.eqb_neq in Hk. simpl. rewrite Hk.
  destruct Hl as [Hl|Hl]; rewrite Hl; simpl; rewrite ?Hk.
  - rewrite Hmeta. simpl. apply lookup_insert_eq.
  - rewrite (copy_source_self _ _ Hb), Hl, Hmeta. simpl. apply lookup_insert_eq.
Qed.

(** X13. What [verify_keys] writes: with [aws] at hand, a bucket name
    without a slash and a metadata argument that the command line accepts,
    whose names differ even when case is ignored, a key of the list that is
    not empty and that was missing, or present without metadata, holds the
    attributes passed after the run, under their names in lower case; they
    replace what was there and are not merged into it. *)
Theorem verify_keys_writes self keys meta attrs (m : machine bucket_world) k :
  aws_installed m = true →
  has_char slash (bucket self) = false →
  metadata_arg meta = Some attrs →
  NoDup (stored attrs).*1 →
  k ∈ keys →
  k ≠ "" →
  objects (world m) !! (bucket self, k) = None
  ∨ objects (world m) !! (bucket self, k) = Some [] →
  objects (world (final (verify_keys self keys meta m))) !! (bucket self, k)
  = Some (stored attrs).
Proof.
  intros Hi Hb Hmeta _ Hin Hne. revert m Hi Hin.
  induction keys as [|k0 keys IH]; intros m Hi Hin Hk; [by apply elem_of_nil in Hin|].
  rewrite verify_keys_cons. unfold bind.
  pose proof (verify_key_keeps_installed self k0 meta m) as Hi1. rewrite Hi in Hi1.
  pose proof (verify_key_result self k0 meta m) as Hr. rewrite Hi in Hr.
  pose proof (verify_key_writes self meta attrs k m Hi Hb Hmeta Hne Hk) as Hst.
  pose proof (verify_key_frame self k0 meta m (bucket self, k)) as Hfr.
  destruct (decide (k = k0)) as [<-|Hd].
  - destruct (verify_key self k meta m) as [[r1 m1] ev1].
    unfold result, final in *. cbn [fst snd] in *. subst r1.
    pose proof (verify_keys_frame_run self keys meta m1 (bucket self) k) as Hrest.
    specialize (IH m1 Hi1).
    destruct (verify_keys self keys meta m1) as [[r2 m2] ev2].
    unfold final in *. cbn [fst snd] in *.
    destruct (decide (k ∈ keys)) as [Hin'|Hout].
    + destruct attrs as [|a attrs]; [apply IH; auto|].
      rewrite Hrest; [done|]. right; right. by eexists.
    + rewrite Hrest; [done|]. by right; left.
  - clear Hst.
    destruct (verify_key self k0 meta m) as [[r1 m1] ev1].
    unfold result, final in *. cbn [fst snd] in *. subst r1.
    specialize (IH m1 Hi1).
    destruct (verify_keys self keys meta m1) as [[r2 m2] ev2].
    unfold final in *. cbn [fst snd] in *.
    apply IH.
    + apply elem_of_cons in Hin as [?|?]; done.
    + rewrite Hfr; [done|]. left. congruence.
Qed.


End Bucket.



Lemma verify_keys_creates_absent_witness :
  let m := Machine true Sample.empty_bucket in
  aws_installed m = true
  ∧ NoDup ["dest/"; "dest/a/"]
  ∧ mutations (events (verify_keys Sample.dest ["dest/"; "dest/a/"]
                         (metadir Sample.dest) m))
    = [put_object "bkt" "dest/" (metadir Sample.dest) "default";
       put_object "bkt" "dest/a/" (metadir Sample.dest) "default"].
Proof.
  assert (NoDup ["dest/"; "dest/a/"]) as Hnd.
  { apply NoDup_cons. split; [|apply NoDup_singleton].
    intros Hin%list_elem_of_singleton. discriminate Hin. }
  split; [reflexivity|]. split; [exact Hnd|].
  apply (verify_keys_creates_absent Sample.dest ["dest/"; "dest/a/"]
           (metadir Sample.dest) (Machine true Sample.empty_bucket) eq_refl Hnd).
  intros k _. reflexivity.
Defined.

Lemma verify_keys_writes_witness :
  let m := Machine true Sample.bucket_state in
  let attrs := [("uid", "6812"); ("gid", "6812"); ("mode", "509")] in
  aws_installed m = true
  ∧ has_char slash (bucket Sample.dest) = false
  ∧ metadata_arg (metadir Sample.dest) = Some attrs
  ∧ NoDup (stored attrs).*1
  ∧ "dest/a/" ∈ ["dest/"; "dest/a/"]
  ∧ "dest/a/" ≠ ""
  ∧ objects (world m) !! ("bkt", "dest/a/") = Some []
  ∧ objects (world (final (verify_keys Sample.dest ["dest/"; "dest/a/"]
                             (metadir Sample.dest) m))) !! ("bkt", "dest/a/")
    = Some attrs.
Proof.
  assert ("dest/a/" ∈ ["dest/"; "dest/a/"]) as Hin by (right; left).
  assert (objects (world (Machine true Sample.bucket_state)) !! ("bkt", "dest/a/")
          = Some []) as Hk by (vm_compute; reflexivity).
  assert (NoDup (stored [("uid", "6812"); ("gid", "6812"); ("mode", "509")]).*1)
    as Hnd by (apply (bool_decide_unpack _); vm_compute; exact I).
  split; [reflexivity|]. split; [reflexivity|]. split; [reflexivity|].
  split; [exact Hnd|]. split; [exact Hin|]. split; [discriminate|].
  split; [exact Hk|].
  apply (verify_keys_writes Sample.dest ["dest/"; "dest/a/"] (metadir Sample.dest)
           [("uid", "6812"); ("gid", "6812"); ("mode", "509")]
           (Machine true Sample.bucket_state) "dest/a/"
           eq_refl eq_refl eq_refl Hnd Hin ltac:(discriminate) (or_intror Hk)).
Defined.

(** ** Where the script writes *)

Section Addresses.
Context {W : Type} `{World W}.

Lemma length_append (a b : string) :
  String.length (a +:+ b) = String.length a + String.length b.
Proof. induction a as [|x a IH]; [done|]. rewrite append_cons. simpl. by rewrite IH. Qed.

Lemma verify_key_addresses self k meta (m : machine W) :
  Forall (fun e => (∀ b' k' p', addressed e = Some (b', k', p') →
                                b' = bucket self ∧ k' = k ∧ p' = profile self)
                   ∧ in_place e ∧ is_bulk e = false)
         (events (verify_key self k meta m)).
Proof.
  destruct (aws_installed m) eqn:E.
  - rewrite (verify_key_installed _ _ _ _ E). simpl.
    destruct (head_result _ _ _ _) as [[|? ?]| |]; simpl;
      repeat match goal with
             | |- Forall _ _ => constructor
             end;
      (split; [|done]; intros b' k' p' Ha; simpl in Ha;
       try discriminate; by injection Ha as <- <- <-).
  - rewrite (verify_key_not_installed _ _ _ _ E). simpl.
    constructor; [|constructor]. split; [|done]. intros b' k' p' Ha. discriminate Ha.
Qed.

Lemma verify_keys_addresses self keys meta (m : machine W) :
  Forall (fun e => (∀ b' k' p', addressed e = Some (b', k', p') →
                                b' = bucket self ∧ k' ∈ keys ∧ p' = profile self)
                   ∧ in_place e ∧ is_bulk e = false)
         (events (verify_keys self keys meta m)).
Proof.
  revert m. induction keys as [|k keys IH]; intros m; [by constructor|].
  rewrite verify_keys_cons. unfold bind.
  pose proof (verify_key_addresses self k meta m) as Hk.
  assert (Forall (fun e => (∀ b' k' p', addressed e = Some (b', k', p') →
                              b' = bucket self ∧ k' ∈ k :: keys ∧ p' = profile self)
                           ∧ in_place e ∧ is_bulk e = false)
                 (events (verify_key self k meta m))) as Hk'.
  { eapply Forall_impl; [exact Hk|]. intros e [Ha Hp]. split; [|done].
    intros b' k' p' He. destruct (Ha _ _ _ He) as (-> & -> & ->).
    split; [done|]. split; [left|done]. }
  destruct (verify_key self k meta m) as [[[[]|e] m1] ev1];
    unfold events in *; cbn [fst snd] in *; [|done].
  specialize (IH m1).
  destruct (verify_keys self keys meta m1) as [[r2 m2] ev2]. cbn [fst snd] in *.
  apply Forall_app. split; [done|].
  eapply Forall_impl; [exact IH|]. intros e [Ha Hp]. split; [|done].
  intros b' k' p' He. destruct (Ha _ _ _ He) as (-> & ? & ->).
  split; [done|]. split; [by right|done].
Qed.

Lemma sync_addresses self (m : machine W) :
  Forall (fun e => (∀ b' k' p', addressed e = Some (b', k', p') →
                      b' = bucket self
                      ∧ k' ∈ key self :: drop 1 (localToKeys self)
                      ∧ p' = profile self)
                   ∧ in_place e)
         (events (sync self m)).
Proof.
  rewrite sync_single. unfold bind.
  pose proof (verify_keys_addresses self (key self :: drop 1 (localToKeys self))
                (metadir self) m) as Hk.
  assert (Forall (fun e => (∀ b' k' p', addressed e = Some (b', k', p') →
                      b' = bucket self
                      ∧ k' ∈ key self :: drop 1 (localToKeys self)
                      ∧ p' = profile self)
                   ∧ in_place e)
                 (events (verify_keys self (key self :: drop 1 (localToKeys self))
                            (metadir self) m))) as Hk'.
  { eapply Forall_impl; [exact Hk|]. by intros e (? & ? & _). }
  destruct (verify_keys self (key self :: drop 1 (localToKeys self))
              (metadir self) m) as [[[[]|e] m1] ev1];
    unfold events in *; cbn [fst snd] in *; [|done].
  unfold spawn_aws. destruct (aws_installed m1); simpl.
  - apply Forall_app. split; [done|]. constructor; [|constructor].
    split; [|done]. intros b' k' p' Ha. discriminate Ha.
  - by rewrite app_nil_r.
Qed.

(** X15. The object that [__init__] builds: every enumerated key is the root
    key followed by a remainder and a slash, so that none of them is the
    root key itself and [sync] reconciles the root key once. *)
Theorem init_keys_under_root options l s meta prof (m : machine W) self :
  result (init options l s meta prof m) = Return self →
  parse_target s = Return (bucket self, key self)
  ∧ ∀ k, k ∈ localToKeys self →
         (∃ rest, k = key self +:+ rest +:+ "/") ∧ k ≠ key self.
Proof.
  rewrite init_run.
  destruct (parse_target s) as [[b p]|] eqn:Et; [|done]. cbn [fst snd].
  destruct (parse_meta options meta) as [[d f]|]; [|done].
  unfold result. cbn [fst snd]. intros [= <-]. cbn [bucket key localToKeys].
  split; [done|]. intros k Hin.
  apply list_elem_of_In, in_map_iff in Hin as (x & <- & _).
  split; [by eexists|]. intros Heq.
  apply (f_equal String.length) in Heq. rewrite !length_append in Heq.
  simpl in Heq. lia.
Qed.

(** X16. Where [__main__] reads and writes in the store.  Every [aws s3api]
    command of a run addresses the bucket of the target, under the profile
    of the options, and a key that begins with the key of the target; every
    copy it issues is a copy of an object onto itself that replaces its
    metadata. *)
Theorem main_stays_in_target options (m : machine W) e :
  e ∈ events (main options m) →
  ∃ b p,
    parse_target (opt_s3path options) = Return (b, p)
    ∧ (∀ b' k' p', addressed e = Some (b', k', p') →
                   b' = b ∧ p' = opt_profile options ∧ ∃ rest, k' = p +:+ rest)
    ∧ in_place e.
Proof.
  unfold main, bind. rewrite init_run.
  destruct (parse_target_total (opt_s3path options)) as (b & p & Ht & _).
  rewrite Ht. cbn [fst snd]. intros He. exists b, p. split; [done|].
  destruct (parse_meta options (opt_metadata options)) as [[d f]|err];
    cbn [fst snd] in He.
  - set (self := {| local := opt_localdir options |}) in He.
    set (m1 := Machine _ _) in He.
    pose proof (sync_addresses self m1) as Hs.
    destruct (sync self m1) as [[r m2] ev]. unfold events in *. cbn [fst snd] in *.
    apply elem_of_cons in He as [->|He]; [split; [intros ??? [=]|done]|].
    rewrite Forall_forall in Hs. destruct (Hs e He) as [Ha Hp]. split; [|done].
    intros b' k' p' Hadd. destruct (Ha _ _ _ Hadd) as (-> & Hin & ->).
    split; [done|]. split; [done|].
    apply elem_of_cons in Hin as [->|Hin].
    + exists "". by rewrite append_empty_r.
    + apply list_elem_of_lookup_1 in Hin as (i & Hin).
      rewrite lookup_drop in Hin. apply list_elem_of_lookup_2 in Hin.
      cbn [localToKeys self] in Hin.
      apply list_elem_of_In, in_map_iff in Hin as (x & <- & _). by eexists.
  - unfold events in He. cbn [fst snd] in He.
    apply list_elem_of_singleton in He as ->. split; [intros ??? [=]|done].
Qed.

End Addresses.

Lemma init_keys_under_root_witness :
  let m := Machine true Sample.bucket_state in
  result (init Sample.options "root" "bkt/dest/" (opt_metadata Sample.options)
            "default" m) = Return Sample.dest
  ∧ "dest/a/" ≠ key Sample.dest.
Proof.
  assert (result (init Sample.options "root" "bkt/dest/"
                    (opt_metadata Sample.options) "default"
                    (Machine true Sample.bucket_state)) = Return Sample.dest)
    as Hinit by reflexivity.
  split; [exact Hinit|].
  destruct (init_keys_under_root Sample.options "root" "bkt/dest/"
              (opt_metadata Sample.options) "default"
              (Machine true Sample.bucket_state) Sample.dest Hinit) as [_ Hk].
  apply (Hk "dest/a/"). right; left.
Defined.

Lemma main_stays_in_target_witness :
  let m := Machine true Sample.empty_store in
  let put := put_object "bkt" "dest/" (metadir Sample.dest) "default" in
  put ∈ events (main Sample.options m)
  ∧ ∃ b p, parse_target (opt_s3path Sample.options) = Return (b, p)
           ∧ b = "bkt" ∧ ∃ rest, "dest/" = p +:+ rest.
Proof.
  assert (put_object "bkt" "dest/" (metadir Sample.dest) "default"
          ∈ events (main Sample.options (Machine true Sample.empty_store))) as Hin.
  { vm_compute. do 3 right. left. }
  split; [exact Hin|].
  destruct (main_stays_in_target Sample.options (Machine true Sample.empty_store)
              _ Hin) as (b & p & Ht & Ha & _).
  destruct (Ha "bkt" "dest/" "default" eq_refl) as (<- & _ & Hrest).
  by exists "bkt", p.
Defined.
